(** * case-pdp: storefront helpers, product client and product action state

    A shallow embedding of the parts of the repository that carry logic:
    - [src/utils/format.ts]            ([generateSlug], [truncateText]),
    - [src/lib/api.ts]                 ([ApiError], [getProductBySku]),
    - [contexts/ProductActionsContext] ([ProductActionsProvider]),
    - [components/QuantitySpinner]     ([handleInputChange]).

    JavaScript strings are sequences of UTF-16 code units.  Numbers that
    the code only uses as integers are in [Z]; where such a number comes
    out of double-precision arithmetic on values of any size (the
    quantity) the rounding of the double is written out ([Js.toDouble]).
    The places where the code compares against a decimal fraction use
    [Q], with the value of the double the literal denotes where the
    other side can be any double ([0.2], [0.1]). *)

From Stdlib Require Import ZArith NArith QArith Qminmax List Bool Lia.
From Stdlib Require Import Ascii String DecimalString.
Import ListNotations.

Local Open Scope Z_scope.

(* ================================================================== *)
(** * The JavaScript string built-ins the sources call                  *)
(* ================================================================== *)

Module Js.

(** A UTF-16 code unit and a JavaScript string. *)
Definition codeunit := N.
Definition jsstring := list codeunit.

(** An ASCII literal as a JavaScript string. *)
Definition lit (s : string) : jsstring :=
  List.map N_of_ascii (list_ascii_of_string s).

(** [s.length] *)
Definition len (s : jsstring) : Z := Z.of_nat (List.length s).

Definition isEmpty (s : jsstring) : bool :=
  match s with [] => true | _ => false end.

Definition inRange (lo hi c : N) : bool := ((lo <=? c) && (c <=? hi))%N.

(** ECMAScript WhiteSpace and LineTerminator code points: the class
    [\s] of regular expressions and the characters [trim] strips. *)
Definition isWhiteSpace (c : codeunit) : bool :=
  inRange 9 13 c            (* TAB LF VT FF CR *)
  || (c =? 32)%N            (* SPACE *)
  || (c =? 160)%N           (* NO-BREAK SPACE *)
  || (c =? 5760)%N          (* U+1680 *)
  || inRange 8192 8202 c    (* U+2000 .. U+200A *)
  || (c =? 8232)%N || (c =? 8233)%N   (* U+2028 U+2029 *)
  || (c =? 8239)%N || (c =? 8287)%N   (* U+202F U+205F *)
  || (c =? 12288)%N         (* U+3000 *)
  || (c =? 65279)%N.        (* U+FEFF *)

Definition SPACE : codeunit := 32%N.
Definition HYPHEN : codeunit := 45%N.

Definition isHyphen (c : codeunit) : bool := (c =? HYPHEN)%N.

(** Longest suffix left after dropping the leading run of [p]. *)
Fixpoint dropWhile (p : codeunit -> bool) (s : jsstring) : jsstring :=
  match s with
  | [] => []
  | c :: t => if p c then dropWhile p t else s
  end.

(** The same at the end of the string. *)
Fixpoint dropWhileEnd (p : codeunit -> bool) (s : jsstring) : jsstring :=
  match s with
  | [] => []
  | c :: t =>
      let t' := dropWhileEnd p t in
      if p c && isEmpty t' then [] else c :: t'
  end.

(** [s.trimStart()], [s.trimEnd()], [s.trim()] *)
Definition trimStart (s : jsstring) : jsstring := dropWhile isWhiteSpace s.
Definition trimEnd (s : jsstring) : jsstring := dropWhileEnd isWhiteSpace s.
Definition trim (s : jsstring) : jsstring := trimEnd (trimStart s).

(** [s.slice(0, e)]: a negative [e] counts from the end, and the end
    index is clamped to [0 .. s.length]. *)
Definition slice0 (s : jsstring) (e : Z) : jsstring :=
  let to := if e <? 0 then Z.max (len s + e) 0 else Z.min e (len s) in
  firstn (Z.to_nat to) s.

(** [s.lastIndexOf(c)] for a one-character search string: the index of
    the last occurrence of [c], or [-1]. *)
Fixpoint lastIndexOf_from (c : codeunit) (s : jsstring) (i acc : Z) : Z :=
  match s with
  | [] => acc
  | x :: t => lastIndexOf_from c t (i + 1) (if (x =? c)%N then i else acc)
  end.

Definition lastIndexOf (c : codeunit) (s : jsstring) : Z :=
  lastIndexOf_from c s 0 (-1).

(** [s.replace(/[class]/g, '')]: every code unit of the class goes. *)
Definition removeAll (p : codeunit -> bool) (s : jsstring) : jsstring :=
  List.filter (fun c => negb (p c)) s.

(** [s.replace(/[class]+/g, r)]: every maximal run of the class is
    replaced by the single code unit [r].  [inRun] tells that the
    previous code unit belonged to a run already replaced. *)
Fixpoint replaceRuns_from (p : codeunit -> bool) (r : codeunit)
  (inRun : bool) (s : jsstring) : jsstring :=
  match s with
  | [] => []
  | c :: t =>
      if p c
      then if inRun then replaceRuns_from p r true t
           else r :: replaceRuns_from p r true t
      else c :: replaceRuns_from p r false t
  end.

Definition replaceRuns (p : codeunit -> bool) (r : codeunit)
  (s : jsstring) : jsstring :=
  replaceRuns_from p r false s.

(** ** Integers as double-precision Numbers

    A Number is an IEEE 754 double.  The integers the code computes with
    are held exactly up to 2^53 in magnitude; beyond, a result is
    rounded to the nearest double, which keeps 53 significant bits, a
    tie going to the even significand, and a result of magnitude
    2^1024 - 2^970 or more is [Infinity].  [Infinity] is written here as
    the integer 2^1024: for the operations the quantity goes through
    (adding and subtracting 1, [Math.min], [Math.max], comparisons with
    small integers) it behaves as that integer does under the rounding
    below. *)
Definition INFINITY : Z := 2 ^ 1024.

(** The double nearest to the integer [n >= 0]. *)
Definition roundMagnitude (n : Z) : Z :=
  let e := Z.log2 n in
  if e <? 53 then n
  else
    let ulp := 2 ^ (e - 52) in
    let q := n / ulp in
    let r := n mod ulp in
    let q' :=
      if 2 * r <? ulp then q
      else if ulp <? 2 * r then q + 1
      else if Z.even q then q else q + 1 in
    Z.min (q' * ulp) INFINITY.

(** The double nearest to the integer [n]. *)
Definition toDouble (n : Z) : Z :=
  if n <? 0 then - roundMagnitude (- n) else roundMagnitude n.

(** ** [parseInt(string)] with no radix argument

    Leading white space is skipped, one sign is read, a [0x]/[0X] prefix
    selects radix 16 (radix 10 otherwise), and the longest prefix of
    digits of that radix is the value; no digit at all gives [NaN],
    here [None].  The result is the Number for the integer the digits
    denote: the nearest double (past the 20th significant digit of a
    decimal input the language leaves the engine a choice; the nearest
    double is taken here too). *)
Definition digitValue (c : codeunit) : option Z :=
  if inRange 48 57 c then Some (Z.of_N c - 48)
  else if inRange 97 122 c then Some (Z.of_N c - 97 + 10)
  else if inRange 65 90 c then Some (Z.of_N c - 65 + 10)
  else None.

Definition digitOf (radix : Z) (c : codeunit) : option Z :=
  match digitValue c with
  | Some d => if d <? radix then Some d else None
  | None => None
  end.

(** Reads the longest prefix of radix-[radix] digits; [acc] is the value
    read so far, [None] while no digit has been seen. *)
Fixpoint readDigits (radix : Z) (s : jsstring) (acc : option Z) : option Z :=
  match s with
  | [] => acc
  | c :: t =>
      match digitOf radix c with
      | Some d =>
          readDigits radix t
            (Some (match acc with Some a => a * radix + d | None => d end))
      | None => acc
      end
  end.

(** The sign read, and the rest of the string. *)
Definition readSign (s : jsstring) : Z * jsstring :=
  match s with
  | c :: t =>
      if (c =? 45)%N then (-1, t)        (* - *)
      else if (c =? 43)%N then (1, t)    (* + *)
      else (1, s)
  | [] => (1, s)
  end.

(** The radix selected, and the rest of the string. *)
Definition readRadix (s : jsstring) : Z * jsstring :=
  match s with
  | a :: b :: t =>
      if (a =? 48)%N && ((b =? 120)%N || (b =? 88)%N)   (* 0x, 0X *)
      then (16, t)
      else (10, s)
  | _ => (10, s)
  end.

Definition parseInt (input : jsstring) : option Z :=
  let '(sign, s) := readSign (trimStart input) in
  let '(radix, s) := readRadix s in
  match readDigits radix s None with
  | Some v => Some (toDouble (sign * v))
  | None => None
  end.

End Js.

(* ================================================================== *)
(** * src/utils/format.ts                                               *)
(* ================================================================== *)

Module Format.
Import Js.

(** Character classes of the regular expressions in [generateSlug]. *)
Definition isCombiningMark (c : codeunit) : bool := inRange 768 879 c.   (* U+0300 .. U+036F *)
Definition isLowerAlnum (c : codeunit) : bool :=
  inRange 97 122 c || inRange 48 57 c.                                    (* [a-z0-9] *)
Definition isSlugInput (c : codeunit) : bool :=
  isLowerAlnum c || isWhiteSpace c || isHyphen c.                         (* [a-z0-9\s-] *)

(** [s.replace(/^-+|-+$/g, '')]: the leading run of hyphens and the
    trailing run of hyphens are removed. *)
Definition stripHyphens (s : jsstring) : jsstring :=
  dropWhileEnd isHyphen (dropWhile isHyphen s).

Section GenerateSlug.

(** The two Unicode-table built-ins, [String.prototype.toLowerCase]
    and [String.prototype.normalize('NFD')]. *)
Variable toLowerCase : jsstring -> jsstring.
Variable normalizeNFD : jsstring -> jsstring.

Definition generateSlug (text : jsstring) : jsstring :=
  let s := toLowerCase text in
  let s := normalizeNFD s in
  let s := removeAll isCombiningMark s in                    (* /[\u0300-\u036f]/g *)
  let s := removeAll (fun c => negb (isSlugInput c)) s in    (* /[^a-z0-9\s-]/g *)
  let s := replaceRuns isWhiteSpace HYPHEN s in              (* /\s+/g  -> '-' *)
  let s := replaceRuns isHyphen HYPHEN s in                  (* /-+/g   -> '-' *)
  let s := stripHyphens s in                                 (* /^-+|-+$/g *)
  trim s.

End GenerateSlug.

(** ** A Latin-1 fragment of the two built-ins

    Enough of [toLowerCase] and of canonical decomposition to run the
    inputs of [__tests__/utils/format.test.ts]: ASCII and Latin-1
    letters are lowered, and the precomposed Latin-1 letters are split
    into base letter and combining mark. *)
Definition lowerLatin1 (c : codeunit) : codeunit :=
  if inRange 65 90 c then (c + 32)%N
  else if inRange 192 222 c && negb (c =? 215)%N then (c + 32)%N
  else c.

Definition toLowerCaseLatin1 (s : jsstring) : jsstring := List.map lowerLatin1 s.

(** (precomposed letter, base letter, combining mark), lower case. *)
Definition latin1Decompositions : list (N * (N * N)) :=
  [ (224, (97, 768)); (225, (97, 769)); (226, (97, 770)); (227, (97, 771));
    (228, (97, 776)); (229, (97, 778)); (231, (99, 807));
    (232, (101, 768)); (233, (101, 769)); (234, (101, 770)); (235, (101, 776));
    (236, (105, 768)); (237, (105, 769)); (238, (105, 770)); (239, (105, 776));
    (241, (110, 771));
    (242, (111, 768)); (243, (111, 769)); (244, (111, 770)); (245, (111, 771));
    (246, (111, 776));
    (249, (117, 768)); (250, (117, 769)); (251, (117, 770)); (252, (117, 776));
    (253, (121, 769)); (255, (121, 776)) ]%N.

Fixpoint lookupDecomposition (c : N) (table : list (N * (N * N))) : option (N * N) :=
  match table with
  | [] => None
  | (k, v) :: rest => if (k =? c)%N then Some v else lookupDecomposition c rest
  end.

Definition decomposeLatin1 (c : codeunit) : jsstring :=
  match lookupDecomposition c latin1Decompositions with
  | Some (base, mark) => [base; mark]
  | None =>
      (* the upper-case letter decomposes like its lower-case form *)
      match lookupDecomposition (c + 32) latin1Decompositions with
      | Some (base, mark) =>
          if inRange 192 221 c then [(base - 32)%N; mark] else [c]
      | None => [c]
      end
  end.

Definition normalizeNFDLatin1 (s : jsstring) : jsstring :=
  List.flat_map decomposeLatin1 s.

Definition generateSlugLatin1 : jsstring -> jsstring :=
  generateSlug toLowerCaseLatin1 normalizeNFDLatin1.

(** The first input of the accent test of [format.test.ts], 'Sofa
    Confortavel' with a-acute (U+00E1) for both stressed vowels. *)
Definition sofaConfortavel : jsstring :=
  [83; 111; 102; 225; 32; 67; 111; 110; 102; 111; 114; 116; 225; 118; 101; 108]%N.

(** ** The slug pattern

    A small regular-expression language over code units, with its
    matching relation, and the pattern [^[a-z0-9]+(-[a-z0-9]+)*$]; the
    two anchors make it a match of the whole string. *)
Inductive regex : Type :=
| Class (p : codeunit -> bool)
| Seq (r1 r2 : regex)
| Star (r : regex).

Inductive matches : regex -> jsstring -> Prop :=
| MClass p c : p c = true -> matches (Class p) [c]
| MSeq r1 r2 s1 s2 :
    matches r1 s1 -> matches r2 s2 -> matches (Seq r1 r2) (s1 ++ s2)
| MStarNil r : matches (Star r) []
| MStarCons r s1 s2 :
    matches r s1 -> matches (Star r) s2 -> matches (Star r) (s1 ++ s2).

Definition Plus (r : regex) : regex := Seq r (Star r).

Definition slugPattern : regex :=
  Seq (Plus (Class isLowerAlnum))
      (Star (Seq (Class isHyphen) (Plus (Class isLowerAlnum)))).

(** Its second half, [(-[a-z0-9]+)*]. *)
Definition groupPattern : regex :=
  Star (Seq (Class isHyphen) (Plus (Class isLowerAlnum))).

(** The same language as a two-state automaton: [afterHyphen] holds at
    the start and after a hyphen, where a letter or digit must follow. *)
Fixpoint slugTail (afterHyphen : bool) (s : jsstring) : bool :=
  match s with
  | [] => negb afterHyphen
  | c :: t =>
      if isLowerAlnum c then slugTail false t
      else if isHyphen c then negb afterHyphen && slugTail true t
      else false
  end.

(** The automaton without its end condition: a prefix of a slug. *)
Fixpoint slugChain (afterHyphen : bool) (s : jsstring) : bool :=
  match s with
  | [] => true
  | c :: t =>
      if isLowerAlnum c then slugChain false t
      else if isHyphen c then negb afterHyphen && slugChain true t
      else false
  end.

Definition isSlugChar (c : codeunit) : bool := isLowerAlnum c || isHyphen c.

(** A string of lower-case ASCII letters, digits and hyphens. *)
Definition SlugChars (s : jsstring) : Prop :=
  Forall (fun c => isSlugChar c = true) s.

(** ** [truncateText]

    [maxLength] is a character count, an integer.  [0.3] is the decimal
    fraction; the double nearest to it differs by less than 2e-17, which
    cannot change the comparison with the integer [lostChars] for any
    string length JavaScript allows (below 2^53). *)
Definition truncateText (text : jsstring) (maxLength : Z) (suffix : jsstring)
  : jsstring :=
  if len text <=? maxLength then text
  else if negb (isEmpty suffix) && (maxLength <? len suffix)
  then slice0 text maxLength ++ suffix
  else if isEmpty suffix
  then trim (slice0 text maxLength)
  else
    let availableLength := maxLength - len suffix in
    let truncated := slice0 text availableLength in
    let lastSpaceIndex := lastIndexOf SPACE truncated in
    let truncated :=
      if (lastSpaceIndex >? 0) && (availableLength >? 10)
      then
        let lostChars := availableLength - lastSpaceIndex in
        if Qle_bool (inject_Z lostChars)
                    (Qmax 3 (inject_Z availableLength * 0.3))
        then slice0 truncated lastSpaceIndex
        else truncated
      else truncated in
    trim truncated ++ suffix.

(** The part of [truncateText] after its three early returns, up to
    the final [trim]: the text kept before the suffix is appended. *)
Definition keptText (text : jsstring) (maxLength : Z) (suffix : jsstring)
  : jsstring :=
  let availableLength := maxLength - len suffix in
  let truncated := slice0 text availableLength in
  let lastSpaceIndex := lastIndexOf SPACE truncated in
  if (lastSpaceIndex >? 0) && (availableLength >? 10)
  then
    if Qle_bool (inject_Z (availableLength - lastSpaceIndex))
                (Qmax 3 (inject_Z availableLength * 0.3))
    then slice0 truncated lastSpaceIndex
    else truncated
  else truncated.

(** The defaults of the two optional parameters. *)
Definition defaultMaxLength : Z := 100.
Definition defaultSuffix : jsstring := lit "...".

End Format.


(* ================================================================== *)
(** * src/lib/api.ts                                                    *)
(* ================================================================== *)

Module Api.

Local Open Scope string_scope.

(** A decoded JSON document, what [response.json()] resolves to. *)
#[local] Set Warnings "-register-all".
Inductive json : Type :=
| JNull
| JBool (b : bool)
| JNumber (q : Q)
| JString (s : string)
| JArray (items : list json)
| JObject (fields : list (string * json)).

(** JavaScript truthiness of a JSON value. *)
Definition truthy (v : json) : bool :=
  match v with
  | JNull => false
  | JBool b => b
  | JNumber q => negb (Qeq_bool q 0)
  | JString s => negb (String.eqb s EmptyString)
  | JArray _ | JObject _ => true
  end.

(** Own property of a parsed object; of a repeated key the last stays. *)
Fixpoint lookupField (key : string) (fields : list (string * json)) : option json :=
  match fields with
  | [] => None
  | (k, v) :: rest =>
      match lookupField key rest with
      | Some v' => Some v'
      | None => if String.eqb k key then Some v else None
      end
  end.

(** The text of an error message: a string, or the stringification of a
    value that is not a string, which is kept symbolic. *)
Inductive text : Type :=
| Str (s : string)
| ToStringOf (v : json).

(** Whether the conversion of a decoded value to a string throws.  An
    object converts by its [toString] method and then its [valueOf]
    method: no value of a decoded document is callable, so an object
    with a key [toString] of its own hides [Object.prototype.toString],
    and [valueOf], found or inherited, yields no primitive: a
    [TypeError].  An array joins the conversions of its elements, with
    the empty string for [null].  Any other value converts. *)
Fixpoint toStringThrows (v : json) : bool :=
  match v with
  | JArray items => existsb toStringThrows items
  | JObject fields =>
      match lookupField "toString" fields with
      | Some _ => true
      | None => false
      end
  | _ => false
  end.

(** [class ApiError extends Error] *)
Record ApiError : Type := mkApiError {
  message : text;
  status : Z;
  error : option string
}.

(** What the platform throws: never an instance of [ApiError]. *)
Inductive RawError : Type :=
| TypeError
| SyntaxError
| AbortError
| OtherError (name : string).

(** A thrown value, as [instanceof ApiError] tells them apart. *)
Inductive exn : Type :=
| ThrownApiError (e : ApiError)
| ThrownRaw (r : RawError).

(** Outcome of an [async] computation: fulfilled or rejected. *)
Inductive outcome (A : Type) : Type :=
| Fulfilled (a : A)
| Rejected (e : exn).
Arguments Fulfilled {A} a.
Arguments Rejected {A} e.

Definition bind {A B : Type} (m : outcome A) (k : A -> outcome B) : outcome B :=
  match m with
  | Fulfilled a => k a
  | Rejected e => Rejected e
  end.

Notation "x <- m ;; k" := (bind m (fun x => k))
  (at level 61, m at next level, right associativity).

(** [try { body } catch (error) { handler }] *)
Definition tryCatch {A : Type} (body : outcome A) (handler : exn -> outcome A)
  : outcome A :=
  match body with
  | Fulfilled a => Fulfilled a
  | Rejected e => handler e
  end.

(** The platform's [Response]: the status line and what [json()] does. *)
Record Response : Type := mkResponse {
  responseStatus : Z;
  responseJson : RawError + json
}.

(** [response.ok] *)
Definition ok (r : Response) : bool :=
  (200 <=? responseStatus r)%Z && (responseStatus r <=? 299)%Z.

(** [await fetch(...)] and [await response.json()] *)
Definition await {A : Type} (p : RawError + A) : outcome A :=
  match p with
  | inl r => Rejected (ThrownRaw r)
  | inr a => Fulfilled a
  end.

(** [errorData.message]: reading a property of [null] throws, any other
    non-object has no such property. *)
Definition getMessage (errorData : json) : outcome (option json) :=
  match errorData with
  | JNull => Rejected (ThrownRaw TypeError)
  | JObject fields => Fulfilled (lookupField "message" fields)
  | _ => Fulfilled None
  end.

Definition textOf (v : json) : text :=
  match v with
  | JString s => Str s
  | _ => ToStringOf v
  end.

(** [m || fallback], a value still. *)
Definition orElse (m : option json) (fallback : string) : json :=
  match m with
  | Some v => if truthy v then v else JString fallback
  | None => JString fallback
  end.

Definition stringOfNumber (n : Z) : string :=
  NilZero.string_of_int (Z.to_int n).

(** [process.env.NEXT_PUBLIC_API_URL || 'http://localhost:3000'] *)
Definition API_BASE_URL (NEXT_PUBLIC_API_URL : option string) : string :=
  match NEXT_PUBLIC_API_URL with
  | Some u => if String.eqb u EmptyString then "http://localhost:3000" else u
  | None => "http://localhost:3000"
  end.

(** [new ApiError(message, status, error)]: [super(message)] converts
    the message to a string, which can throw. *)
Definition newApiError (message : json) (st : Z) (err : option string)
  : outcome ApiError :=
  if toStringThrows message
  then Rejected (ThrownRaw TypeError)
  else Fulfilled (mkApiError (textOf message) st err).

Definition notFoundError (m : text) : ApiError :=
  mkApiError m 404 (Some "Not Found").

Definition httpError (st : Z) : ApiError :=
  mkApiError (Str ("Erro na API: " ++ stringOfNumber st)) st None.

Definition connectionError : ApiError :=
  mkApiError (Str "Erro de conexão com o servidor") 500 None.

(** [getProductBySku]; [fetch] is the network as this call meets it.
    The decoded body is returned as it is, the cast to [Product] checks
    nothing. *)
Definition getProductBySku (env : option string)
  (fetch : string -> RawError + Response) (sku : string) : outcome json :=
  tryCatch
    (response <- await (fetch (API_BASE_URL env ++ "/products/" ++ sku)) ;;
     if negb (ok response)
     then
       if (responseStatus response =? 404)%Z
       then
         errorData <- await (responseJson response) ;;
         m <- getMessage errorData ;;
         e <- newApiError (orElse m "Produto não encontrado")
                404 (Some "Not Found") ;;
         Rejected (ThrownApiError e)
       else
         Rejected (ThrownApiError (httpError (responseStatus response)))
     else
       product <- await (responseJson response) ;;
       Fulfilled product)
    (fun error =>
       match error with
       | ThrownApiError e => Rejected (ThrownApiError e)
       | ThrownRaw _ => Rejected (ThrownApiError connectionError)
       end).

(** The three kinds of failure of the error taxonomy. *)
Inductive ErrorKind : Type :=
| NotFound
| HttpError (st : Z)
| ConnectionError.

Definition textEqb (a : text) (s : string) : bool :=
  match a with
  | Str s' => String.eqb s' s
  | ToStringOf _ => false
  end.

(** The kind an [ApiError] value presents to a caller who inspects all
    of its fields. *)
Definition kindOf (e : ApiError) : option ErrorKind :=
  match error e with
  | Some tag =>
      if (status e =? 404)%Z && String.eqb tag "Not Found"
      then Some NotFound else None
  | None =>
      if textEqb (message e) "Erro de conexão com o servidor"
         && (status e =? 500)%Z
      then Some ConnectionError
      else if textEqb (message e) ("Erro na API: " ++ stringOfNumber (status e))
      then Some (HttpError (status e))
      else None
  end.

(** [errorData.message || 'Produto não encontrado'] for a decoded body
    other than [null]. *)
Definition notFoundMessage (errorData : json) : json :=
  match errorData with
  | JObject fields =>
      orElse (lookupField "message" fields) "Produto não encontrado"
  | _ => JString "Produto não encontrado"
  end.

(** The URL one call requests. *)
Definition productUrl (env : option string) (sku : string) : string :=
  API_BASE_URL env ++ "/products/" ++ sku.

(** The call is rejected with an [ApiError] of the given kind. *)
Definition failsWith (result : outcome json) (k : ErrorKind) : Prop :=
  exists e, result = Rejected (ThrownApiError e) /\ kindOf e = Some k.

(** A network that gives the same answer to every request. *)
Definition answering (o : RawError + Response) : string -> RawError + Response :=
  fun _ => o.

End Api.

(* ================================================================== *)
(** * contexts/ProductActionsContext and components/QuantitySpinner      *)
(* ================================================================== *)

Module ProductActions.
Import Js.

(** [type CartStatus = 'idle' | 'loading' | 'success' | 'error'] *)
Inductive CartStatus : Type := idle | loading | success | error.

Definition CartStatus_eqb (a b : CartStatus) : bool :=
  match a, b with
  | idle, idle | loading, loading | success, success | error, error => true
  | _, _ => false
  end.

(** The two callbacks the provider hands to [setTimeout]. *)
Inductive callback : Type :=
| ResumeAddToCart     (* [resolve]: the rest of [handleAddToCart] runs *)
| RevertToIdle.       (* [() => setCartStatus('idle')] *)

Record timer : Type := mkTimer { due : Z; run : callback }.

(** The provider's two [useState] cells, with the clock (in ms) and the
    timers pending in the event loop, in the order they were set.  The
    quantity is an integer-valued double, or [Js.INFINITY]. *)
Record State : Type := mkState {
  quantity : Z;
  cartStatus : CartStatus;
  now : Z;
  timers : list timer
}.

(** [useState(1)], [useState<CartStatus>('idle')] *)
Definition initialState : State := mkState 1 idle 0 [].

Definition setQuantity (q : Z) (st : State) : State :=
  mkState q (cartStatus st) (now st) (timers st).

Definition setCartStatus (s : CartStatus) (st : State) : State :=
  mkState (quantity st) s (now st) (timers st).

Definition setTimeout (cb : callback) (delay : Z) (st : State) : State :=
  mkState (quantity st) (cartStatus st) (now st)
          (timers st ++ [mkTimer (now st + delay) cb]).

(** [setQuantity(prev => Math.min(10, prev + 1))]: the sum is a double. *)
Definition incrementQuantity (st : State) : State :=
  setQuantity (Z.min 10 (toDouble (quantity st + 1))) st.

(** [setQuantity(prev => Math.max(1, prev - 1))]: so is the difference. *)
Definition decrementQuantity (st : State) : State :=
  setQuantity (Z.max 1 (toDouble (quantity st - 1))) st.

(** [handleAddToCart] up to its [await]. *)
Definition handleAddToCart (st : State) : State :=
  setTimeout ResumeAddToCart 1000 (setCartStatus loading st).

(** The double that the literal [0.2] denotes: 3602879701896397 / 2^54,
    a little above one fifth. *)
Definition double_0_2 : Q := 3602879701896397 # 18014398509481984.

(** [Math.random() > 0.2] *)
Definition randomAboveThreshold (random : Q) : bool :=
  negb (Qle_bool random double_0_2).

(** [handleAddToCart] after its [await]; [random] is what
    [Math.random()] returns.  Nothing in the [try] block throws, the
    [catch] block is never entered. *)
Definition resumeAddToCart (random : Q) (st : State) : State :=
  if randomAboveThreshold random
  then setTimeout RevertToIdle 2000 (setCartStatus success st)
  else setTimeout RevertToIdle 3000 (setCartStatus error st).

Definition runCallback (random : Q) (cb : callback) (st : State) : State :=
  match cb with
  | ResumeAddToCart => resumeAddToCart random st
  | RevertToIdle => setCartStatus idle st
  end.

(** The pending timer that fires next: the earliest due, and of equal
    ones the one set first.  It is returned with the others. *)
Fixpoint nextTimer (ts : list timer) : option (timer * list timer) :=
  match ts with
  | [] => None
  | t :: rest =>
      match nextTimer rest with
      | Some (t', rest') =>
          if due t <=? due t' then Some (t, rest) else Some (t', t :: rest')
      | None => Some (t, [])
      end
  end.

(** The event loop runs the next timer at its due time. *)
Definition fireNextTimer (random : Q) (st : State) : State :=
  match nextTimer (timers st) with
  | None => st
  | Some (t, rest) =>
      runCallback random (run t)
        (mkState (quantity st) (cartStatus st) (Z.max (now st) (due t)) rest)
  end.

(** Time passes with no timer firing: at most up to the next due time. *)
Definition wait (ms : Z) (st : State) : State :=
  let target := now st + Z.max 0 ms in
  let target :=
    match nextTimer (timers st) with
    | Some (t, _) => Z.max (now st) (Z.min target (due t))
    | None => target
    end in
  mkState (quantity st) (cartStatus st) target (timers st).

(** [QuantitySpinner.handleInputChange], [e.target.value] being [value]. *)
Definition handleInputChange (value : jsstring) (st : State) : State :=
  match parseInt value with
  | Some v => if v >=? 1 then setQuantity v st else st
  | None => st          (* [isNaN(value)] *)
  end.

(** What can happen to a mounted provider. *)
Inductive event : Type :=
| ClickIncrement
| ClickDecrement
| InputChange (value : jsstring)
| CallHandleAddToCart
| CallSetCartStatus (s : CartStatus)
| TimerFires (random : Q)
| Wait (ms : Z).

Definition step (st : State) (e : event) : State :=
  match e with
  | ClickIncrement => incrementQuantity st
  | ClickDecrement => decrementQuantity st
  | InputChange value => handleInputChange value st
  | CallHandleAddToCart => handleAddToCart st
  | CallSetCartStatus s => setCartStatus s st
  | TimerFires random => fireNextTimer random st
  | Wait ms => wait ms st
  end.

Definition runEvents (st : State) (es : list event) : State :=
  fold_left step es st.

(** The edges of the cart-submission status machine. *)
Definition statusEdge (a b : CartStatus) : bool :=
  match a, b with
  | idle, loading
  | loading, success
  | loading, error
  | success, idle
  | error, idle => true
  | _, _ => false
  end.

(** [AddToCartButton]: [disabled={cartStatus === 'loading' || cartStatus === 'success'}] *)
Definition addToCartDisabled (st : State) : bool :=
  CartStatus_eqb (cartStatus st) loading || CartStatus_eqb (cartStatus st) success.

(** A directly entered value that the stepper could have produced too. *)
Definition inputWithinStepperRange (e : event) : Prop :=
  match e with
  | InputChange value =>
      match parseInt value with
      | Some v => v <= 10
      | None => True
      end
  | _ => True
  end.

(** The use the page makes of the provider, tightened by one step:
    [setCartStatus] is left to the provider itself, and
    [handleAddToCart] is called in status [idle] only. *)
Definition disciplined (st : State) (e : event) : Prop :=
  match e with
  | CallSetCartStatus _ => False
  | CallHandleAddToCart => cartStatus st = idle
  | _ => True
  end.

Inductive reachable : State -> Prop :=
| reachable_initial : reachable initialState
| reachable_step st e :
    reachable st -> disciplined st e -> reachable (step st e).

(** In a disciplined run the pending timers are determined by the
    status. *)
Definition consistent (st : State) : Prop :=
  match cartStatus st with
  | idle => timers st = []
  | loading => exists d, timers st = [mkTimer d ResumeAddToCart]
  | success | error => exists d, timers st = [mkTimer d RevertToIdle]
  end.



End ProductActions.


(* ================================================================== *)
(** * The controls bound to the product action state                    *)
(* ================================================================== *)

Module Controls.
Import Js ProductActions.

(** [QuantitySpinner]: the decrement button, [disabled={quantity <= 1}].
    The increment button has no [disabled] attribute. *)
Definition decrementDisabled (st : State) : bool := quantity st <=? 1.

(** The decimal text of an integer [n]: the decimal digits, most
    significant first, after a minus sign for a negative number.  For
    an [n] that a double holds exactly (up to 2^53 in magnitude) it is
    [String(n)], which is what the controlled input shows for
    [value={quantity}].  [fuel] bounds the number of digits. *)
Fixpoint digitsOf (fuel : nat) (n : Z) (rest : jsstring) : jsstring :=
  match fuel with
  | O => rest
  | S fuel' =>
      let rest' := Z.to_N (48 + n mod 10) :: rest in
      if n <? 10 then rest' else digitsOf fuel' (n / 10) rest'
  end.

(** The code units of the decimal digits, [0] to [9]. *)
Definition isDigitCode (c : codeunit) : Prop := (48 <= c <= 57)%N.

Definition numberToString (n : Z) : jsstring :=
  if n <? 0
  then 45%N :: digitsOf (S (Z.to_nat (Z.log2 (- n)))) (- n) []
  else digitsOf (S (Z.to_nat (Z.log2 n))) n [].

(** The events of the quantity control, as opposed to those of the cart
    submission and of the event loop. *)
Definition isQuantityEvent (e : event) : bool :=
  match e with
  | ClickIncrement | ClickDecrement | InputChange _ => true
  | _ => false
  end.

(** A run in which [setCartStatus] is not called from outside. *)
Definition isSetterCall (e : event) : bool :=
  match e with
  | CallSetCartStatus _ => true
  | _ => false
  end.

(** The timers that are still to fire before the event loop is idle: a
    pending resume of [handleAddToCart] sets one more timer when it
    fires. *)
Definition firingsLeft (ts : list timer) : nat :=
  list_sum (List.map (fun t => match run t with
                               | ResumeAddToCart => 2
                               | RevertToIdle => 1
                               end)%nat ts).

(** The event loop fires one timer per draw. *)
Definition fireAll (draws : list Q) (st : State) : State :=
  fold_left (fun st random => fireNextTimer random st) draws st.

Definition hasPending (cb : callback) (st : State) : Prop :=
  exists d, In (mkTimer d cb) (timers st).

(** A status other than [idle] is backed by a pending timer. *)
Definition backed (st : State) : Prop :=
  match cartStatus st with
  | idle => True
  | loading => hasPending ResumeAddToCart st
  | success | error => hasPending RevertToIdle st
  end.

End Controls.

(* ================================================================== *)
(** * src/app/product/[sku]/page.tsx                                    *)
(* ================================================================== *)

Module Page.
Import Api.

(** What a request for the page ends in: the rendered tree (here the
    product it shows), the not-found page that [notFound()] raises, or
    an error that leaves [ProductPage]. *)
Inductive PageResult : Type :=
| Rendered (product : json)
| NotFoundPage
| PageFails (e : exn).

(** The props of the returned tree read [product.imageUrl] and
    [product.name], which throws for [null]; the components are only
    called after [ProductPage] has returned. *)
Definition readProps (product : json) : outcome json :=
  match product with
  | JNull => Rejected (ThrownRaw TypeError)
  | _ => Fulfilled product
  end.

(** [ProductPage], [params] having resolved to [sku]. *)
Definition ProductPage (env : option string)
  (fetch : string -> RawError + Response) (sku : string) : PageResult :=
  match (product <- getProductBySku env fetch sku ;; readProps product) with
  | Fulfilled product => Rendered product
  | Rejected error =>
      match error with
      | ThrownApiError e =>
          if (status e =? 404)%Z || (status e =? 400)%Z
          then NotFoundPage
          else PageFails error
      | ThrownRaw _ => PageFails error
      end
  end.

End Page.

(* ================================================================== *)
(** * src/lib/sitemap-data.ts                                           *)
(* ================================================================== *)

Module SitemapData.
Import Api.
Local Open Scope string_scope.

Record Product : Type := mkProduct {
  sku : string;
  name : string;
  lastModified : string;     (* the date, as given to [new Date] *)
  isActive : bool
}.

(** What the function returns: [data.products] as the backend sent it,
    or an array of [Product] built here. *)
Inductive Products : Type :=
| ApiProducts (products : json)
| ProductList (products : list Product).

Definition mockProducts : list Product :=
  [ mkProduct "product-1" "Premium Wireless Headphones" "2024-01-15" true;
    mkProduct "product-2" "Smart Fitness Tracker" "2024-01-20" true;
    mkProduct "product-3" "Bluetooth Speaker" "2024-01-25" true;
    mkProduct "product-4" "Wireless Charging Pad" "2024-01-30" true;
    mkProduct "product-5" "USB-C Hub" "2024-02-01" true ].

(** [data.products] *)
Definition getProducts (data : json) : outcome (option json) :=
  match data with
  | JNull => Rejected (ThrownRaw TypeError)
  | JObject fields => Fulfilled (lookupField "products" fields)
  | _ => Fulfilled None
  end.

(** [getProductsForSitemap]; [API_BASE_URL] is [process.env.API_BASE_URL]. *)
Definition getProductsForSitemap (API_BASE_URL : option string)
  (fetch : string -> RawError + Response) : outcome Products :=
  let useApi :=
    match API_BASE_URL with
    | Some u => negb (String.eqb u EmptyString)
    | None => false
    end in
  let body : outcome Products :=
    if useApi
    then
      response <-
        await (fetch (match API_BASE_URL with Some u => u | None => EmptyString end
                      ++ "/products/sitemap")) ;;
      if negb (ok response)
      then Rejected (ThrownRaw
                       (OtherError ("API request failed: "
                                    ++ stringOfNumber (responseStatus response))))
      else
        data <- await (responseJson response) ;;
        products <- getProducts data ;;
        Fulfilled (match products with
                   | Some v => if truthy v then ApiProducts v else ProductList []
                   | None => ProductList []
                   end)
    else
      Fulfilled
        (ProductList
           (List.map (fun product =>
                        mkProduct (sku product) (name product)
                          (lastModified product) (isActive product))
              (List.filter isActive mockProducts))) in
  tryCatch body (fun _ => Fulfilled (ProductList [])).

End SitemapData.

(* ================================================================== *)
(** * src/lib/seo-monitoring.ts                                         *)
(* ================================================================== *)

Module SeoMonitoring.
Import Js.

(** [s.startsWith(p)] *)
Fixpoint startsWith (p s : jsstring) : bool :=
  match p, s with
  | [], _ => true
  | _ :: _, [] => false
  | a :: p', b :: s' => (a =? b)%N && startsWith p' s'
  end.

(** [s.includes(p)] *)
Fixpoint includes (p s : jsstring) : bool :=
  startsWith p s
  || match s with
     | [] => false
     | _ :: t => includes p t
     end.

(** [(s.match(/p/g) || []).length] for a literal, non-empty pattern [p]:
    the matches are counted from the left and do not overlap; [skip]
    code units of the last match are still to be passed. *)
Fixpoint countMatches_from (p s : jsstring) (skip : nat) : nat :=
  match s with
  | [] => 0
  | _ :: t =>
      match skip with
      | S k => countMatches_from p t k
      | O =>
          if startsWith p s
          then S (countMatches_from p t (List.length p - 1))
          else countMatches_from p t 0
      end
  end.

Definition countMatches (p s : jsstring) : Z :=
  Z.of_nat (countMatches_from p s 0).

Definition quote : jsstring := [34%N].

(** ['<?xml version="1.0" encoding="UTF-8"?>'] *)
Definition xmlDeclaration : jsstring :=
  lit "<?xml version=" ++ quote ++ lit "1.0" ++ quote
  ++ lit " encoding=" ++ quote ++ lit "UTF-8" ++ quote ++ lit "?>".

(** ['<urlset xmlns="http://www.sitemaps.org/schemas/sitemap/0.9">'] *)
Definition urlsetDeclaration : jsstring :=
  lit "<urlset xmlns=" ++ quote
  ++ lit "http://www.sitemaps.org/schemas/sitemap/0.9" ++ quote ++ lit ">".

(** [array.push(x)] *)
Definition push (x : string) (array : list string) : list string :=
  array ++ [x].

Local Open Scope string_scope.

Inductive Health : Type := healthy | warning | error.

Definition Health_eqb (a b : Health) : bool :=
  match a, b with
  | healthy, healthy | warning, warning | error, error => true
  | _, _ => false
  end.

(** A thrown value: an [Error] with its message, or something else. *)
Inductive Thrown : Type :=
| ErrorObject (message : string)
| NotAnError.

(** [error instanceof Error ? error.message : 'Unknown error'] *)
Definition messageOf (thrown : Thrown) : string :=
  match thrown with
  | ErrorObject message => message
  | NotAnError => "Unknown error"
  end.

Record Response : Type := mkResponse {
  status : Z;
  statusText : string;
  text : Thrown + jsstring        (* what [response.text()] settles to *)
}.

Definition ok (r : Response) : bool :=
  ((200 <=? status r) && (status r <=? 299))%Z.

Definition bind {A B : Type} (m : Thrown + A) (k : A -> Thrown + B) : Thrown + B :=
  match m with
  | inl thrown => inl thrown
  | inr a => k a
  end.

Notation "x <- m ;; k" := (bind m (fun x => k))
  (at level 61, m at next level, right associativity).

Definition stringOfNumber (n : Z) : string :=
  NilZero.string_of_int (Z.to_int n).

(** [process.env.NEXT_PUBLIC_SITE_URL || 'http://localhost:3001'] *)
Definition siteUrl (NEXT_PUBLIC_SITE_URL : option string) : string :=
  match NEXT_PUBLIC_SITE_URL with
  | Some u => if String.eqb u EmptyString then "http://localhost:3001" else u
  | None => "http://localhost:3001"
  end.

(** [errors.length > 0 ? 'error' : warnings.length > 0 ? 'warning' : 'healthy'] *)
Definition statusOf (errors warnings : list string) : Health :=
  if (Z.of_nat (List.length errors) >? 0)%Z then error
  else if (Z.of_nat (List.length warnings) >? 0)%Z then warning
  else healthy.

(** [array.push(x)] guarded by [if (cond)] *)
Definition pushIf (cond : bool) (x : string) (array : list string) : list string :=
  if cond then push x array else array.

Record SitemapHealthCheck : Type := mkSitemapHealthCheck {
  sitemapStatus : Health;
  urlCount : Z;
  sitemapLastChecked : Z;
  sitemapErrors : list string;
  sitemapWarnings : list string
}.

(** [checkSitemapHealth]; [clock] is what [new Date()] reads. *)
Definition checkSitemapHealth (env : option string) (clock : Z)
  (fetch : string -> Thrown + Response) : SitemapHealthCheck :=
  let baseUrl := siteUrl env in
  let errors : list string := [] in
  let warnings : list string := [] in
  let attempt : Thrown + SitemapHealthCheck :=
    response <- fetch (baseUrl ++ "/sitemap.xml") ;;
    if negb (ok response)
    then
      let errors :=
        push ("Sitemap HTTP error: " ++ stringOfNumber (status response)
              ++ " " ++ statusText response) errors in
      inr (mkSitemapHealthCheck error 0 clock errors warnings)
    else
      text <- text response ;;
      let urlCount := countMatches (lit "<url>") text in
      let warnings :=
        pushIf (urlCount <? 5)%Z
          ("Sitemap has unusually few URLs: " ++ stringOfNumber urlCount)
          warnings in
      let errors :=
        pushIf (negb (includes xmlDeclaration text))
          "Sitemap missing XML declaration" errors in
      let errors :=
        pushIf (negb (includes urlsetDeclaration text))
          "Sitemap missing proper urlset declaration" errors in
      let errors :=
        pushIf (negb (includes (lit "<loc>") text))
          "Sitemap missing location elements" errors in
      inr (mkSitemapHealthCheck (statusOf errors warnings) urlCount clock
             errors warnings) in
  match attempt with
  | inr result => result
  | inl thrown =>
      (* nothing has been pushed where an exception can come from *)
      let errors :=
        push ("Sitemap health check failed: " ++ messageOf thrown) errors in
      mkSitemapHealthCheck error 0 clock errors warnings
  end.

Record RobotsHealthCheck : Type := mkRobotsHealthCheck {
  robotsStatus : Health;
  robotsLastChecked : Z;
  robotsErrors : list string;
  robotsWarnings : list string;
  hasUserAgent : bool;
  hasSitemap : bool;
  hasDisallow : bool
}.

Definition checkRobotsHealth (env : option string) (clock : Z)
  (fetch : string -> Thrown + Response) : RobotsHealthCheck :=
  let baseUrl := siteUrl env in
  let errors : list string := [] in
  let warnings : list string := [] in
  let attempt : Thrown + RobotsHealthCheck :=
    response <- fetch (baseUrl ++ "/robots.txt") ;;
    if negb (ok response)
    then
      let errors :=
        push ("Robots.txt HTTP error: " ++ stringOfNumber (status response)
              ++ " " ++ statusText response) errors in
      inr (mkRobotsHealthCheck error clock errors warnings false false false)
    else
      text <- text response ;;
      let hasUserAgent := includes (lit "User-agent:") text in
      let hasSitemap := includes (lit "Sitemap:") text in
      let hasDisallow := includes (lit "Disallow:") text in
      let errors :=
        pushIf (negb hasUserAgent)
          "Robots.txt missing User-agent directive" errors in
      let warnings :=
        pushIf (negb hasSitemap)
          "Robots.txt missing Sitemap directive" warnings in
      let warnings :=
        pushIf (negb hasDisallow)
          "Robots.txt has no Disallow directives - consider adding some for security"
          warnings in
      inr (mkRobotsHealthCheck (statusOf errors warnings) clock errors warnings
             hasUserAgent hasSitemap hasDisallow) in
  match attempt with
  | inr result => result
  | inl thrown =>
      let errors :=
        push ("Robots.txt health check failed: " ++ messageOf thrown) errors in
      mkRobotsHealthCheck error clock errors warnings false false false
  end.

Record SEOHealthReport : Type := mkSEOHealthReport {
  sitemap : SitemapHealthCheck;
  robots : RobotsHealthCheck;
  overall : Health;
  lastChecked : Z
}.

Definition generateSEOHealthReport (env : option string) (clock : Z)
  (fetch : string -> Thrown + Response) : SEOHealthReport :=
  let sitemapHealth := checkSitemapHealth env clock fetch in
  let robotsHealth := checkRobotsHealth env clock fetch in
  let hasErrors :=
    Health_eqb (sitemapStatus sitemapHealth) error
    || Health_eqb (robotsStatus robotsHealth) error in
  let hasWarnings :=
    Health_eqb (sitemapStatus sitemapHealth) warning
    || Health_eqb (robotsStatus robotsHealth) warning in
  let overall :=
    if hasErrors then error else if hasWarnings then warning else healthy in
  mkSEOHealthReport sitemapHealth robotsHealth overall clock.

(** How bad a status is, and the worse of two. *)
Definition severity (h : Health) : Z :=
  match h with healthy => 0 | warning => 1 | error => 2 end.

Definition worse (a b : Health) : Health :=
  if (severity a <? severity b)%Z then b else a.

End SeoMonitoring.

(* ================================================================== *)
(** * src/lib/performance.ts                                            *)
(* ================================================================== *)

Module Performance.
Local Open Scope string_scope.

(** A web-vitals [Metric], as far as the monitor reads it.  A value is
    a double, here the rational it denotes ([NaN] set aside). *)
Record Metric : Type := mkMetric {
  name : string;
  value : Q;
  id : string
}.

(** [Map<string, Metric>]: the entries in insertion order. *)
Definition MetricMap : Type := list (string * Metric).

(** [map.set(key, metric)]: an existing key keeps its place. *)
Fixpoint mapSet (key : string) (metric : Metric) (map : MetricMap) : MetricMap :=
  match map with
  | [] => [(key, metric)]
  | (k, v) :: rest =>
      if String.eqb k key then (k, metric) :: rest
      else (k, v) :: mapSet key metric rest
  end.

(** [map.get(key)] *)
Fixpoint mapGet (key : string) (map : MetricMap) : option Metric :=
  match map with
  | [] => None
  | (k, v) :: rest => if String.eqb k key then Some v else mapGet key rest
  end.

(** [class PerformanceMonitor] *)
Record PerformanceMonitor : Type := mkMonitor {
  metrics : MetricMap
}.

Definition newMonitor : PerformanceMonitor := mkMonitor [].

(** [handleMetric]: the metric is stored under its name; the logging
    and the analytics call that follow do not touch the monitor. *)
Definition handleMetric (metric : Metric) (monitor : PerformanceMonitor)
  : PerformanceMonitor :=
  mkMonitor (mapSet (name metric) metric (metrics monitor)).

Definition getMetric (key : string) (monitor : PerformanceMonitor)
  : option Metric :=
  mapGet key (metrics monitor).

(** The double that the literal [0.1] denotes. *)
Definition double_0_1 : Q := 3602879701896397 # 36028797018963968.

(** [const budget = { LCP: 2500, INP: 200, CLS: 0.1, FCP: 1800, TTFB: 800 }] *)
Definition budget : list (string * Q) :=
  [ ("LCP", 2500%Q); ("INP", 200%Q); ("CLS", double_0_1);
    ("FCP", 1800%Q); ("TTFB", 800%Q) ].

(** One entry of [violations], the text
    [`${metricName}: ${metric.value} > ${threshold}`], by its parts. *)
Record Violation : Type := mkViolation {
  violated : string;
  measured : Q;
  threshold : Q
}.

(** [metric.value > threshold] *)
Definition exceeds (v threshold : Q) : bool := negb (Qle_bool v threshold).

Record BudgetResult : Type := mkBudgetResult {
  passed : bool;
  violations : list Violation
}.

(** [checkPerformanceBudget] *)
Definition checkPerformanceBudget (monitor : PerformanceMonitor) : BudgetResult :=
  let violations :=
    List.flat_map
      (fun entry : string * Q =>
         let '(metricName, threshold) := entry in
         match mapGet metricName (metrics monitor) with
         | Some metric =>
             if exceeds (value metric) threshold
             then [mkViolation metricName (value metric) threshold]
             else []
         | None => []
         end)
      budget in
  mkBudgetResult (Nat.eqb (List.length violations) 0) violations.

(** The monitor after the given metrics have been reported, in order. *)
Definition report (ms : list Metric) (monitor : PerformanceMonitor)
  : PerformanceMonitor :=
  fold_left (fun monitor metric => handleMetric metric monitor) ms monitor.

End Performance.

(* ================================================================== *)
(** * The structured-data components and the product image              *)
(* ================================================================== *)

Module Schemas.
Import Js.

Record BreadcrumbItem : Type := mkBreadcrumbItem {
  itemName : string;
  itemUrl : string
}.

(** One [ListItem] of [breadcrumbData.itemListElement]. *)
Record ListItem : Type := mkListItem {
  position : Z;
  listName : string;
  item : string
}.

(** [array.map((element, index) => ...)], [index] counting from [from]. *)
Fixpoint mapIndexed {A B : Type} (f : A -> Z -> B) (l : list A) (from : Z)
  : list B :=
  match l with
  | [] => []
  | a :: rest => f a from :: mapIndexed f rest (from + 1)
  end.

(** [BreadcrumbSchema]: the [itemListElement] of its data. *)
Definition itemListElement (items : list BreadcrumbItem) : list ListItem :=
  mapIndexed
    (fun item index => mkListItem (index + 1) (itemName item) (itemUrl item))
    items 0.

(** [ProductSchema]: the [image] of its data,
    [images.map(img => img.startsWith('http') ? img : `${baseUrl}${img}`)]. *)
Definition productImages (baseUrl : jsstring) (images : list jsstring)
  : list jsstring :=
  List.map
    (fun img =>
       if SeoMonitoring.startsWith (lit "http") img then img else baseUrl ++ img)
    images.

End Schemas.

Module ProductImage.
Import Js.

(** The two [useState] cells of [ProductImage]. *)
Record ImageState : Type := mkImageState {
  isLoading : bool;
  hasError : bool
}.

(** [!src || src.trim() === '']; an [imageUrl] that the product lacks
    arrives as [undefined], here [None]. *)
Definition isBlank (src : option jsstring) : bool :=
  match src with
  | None => true
  | Some s => isEmpty s || isEmpty (trim s)
  end.

(** [useState(true)], [useState(!src || src.trim() === '')] *)
Definition initialImageState (src : option jsstring) : ImageState :=
  mkImageState true (isBlank src).

Definition handleLoad (st : ImageState) : ImageState :=
  mkImageState false (hasError st).

Definition handleError (st : ImageState) : ImageState :=
  mkImageState false true.

Definition showsImage (src : option jsstring) (st : ImageState) : bool :=
  if hasError st then false
  else match src with
       | None => false
       | Some s => negb (isEmpty s) && negb (isEmpty (trim s))
       end.

(** The two events of the image element, which arrive only while the
    element is rendered. *)
Inductive imageEvent : Type := Loaded | Failed.

Definition imageStep (src : option jsstring) (st : ImageState) (e : imageEvent)
  : ImageState :=
  if showsImage src st
  then match e with
       | Loaded => handleLoad st
       | Failed => handleError st
       end
  else st.

Definition imageRun (src : option jsstring) (es : list imageEvent) : ImageState :=
  fold_left (imageStep src) es (initialImageState src).

End ProductImage.

(* ================================================================== *)
(** * Facts about the string built-ins                                  *)
(* ================================================================== *)

Module JsFacts.
Import Js.

Lemma dropWhile_length p s :
  (List.length (dropWhile p s) <= List.length s)%nat.
Proof.
  induction s as [|c t IH]; simpl; [lia|].
  destruct (p c); simpl; lia.
Qed.

Lemma dropWhileEnd_length p s :
  (List.length (dropWhileEnd p s) <= List.length s)%nat.
Proof.
  induction s as [|c t IH]; simpl; [lia|].
  destruct (p c && isEmpty (dropWhileEnd p t)); simpl; lia.
Qed.

Lemma len_nonneg s : 0 <= len s.
Proof. unfold len; lia. Qed.

Lemma len_app s t : len (s ++ t) = len s + len t.
Proof. unfold len; rewrite length_app; lia. Qed.

Lemma trim_len s : len (trim s) <= len s.
Proof.
  unfold trim, trimEnd, trimStart, len.
  pose proof (dropWhileEnd_length isWhiteSpace (dropWhile isWhiteSpace s)).
  pose proof (dropWhile_length isWhiteSpace s). lia.
Qed.

Lemma slice0_len_le s e : len (slice0 s e) <= len s.
Proof.
  unfold slice0, len. rewrite length_firstn. lia.
Qed.

Lemma slice0_len_bound s e : 0 <= e -> len (slice0 s e) <= e.
Proof.
  intros He. unfold slice0, len.
  destruct (Z.ltb_spec e 0); [lia|].
  rewrite length_firstn. lia.
Qed.

(** For an end index inside the string, [slice(0, e)] is the prefix of
    [e] code units. *)
Lemma slice0_firstn s e :
  0 <= e <= len s -> slice0 s e = firstn (Z.to_nat e) s.
Proof.
  intros He. unfold slice0.
  destruct (Z.ltb_spec e 0); [lia|].
  rewrite Z.min_l by lia. reflexivity.
Qed.

Lemma dropWhile_none p s :
  Forall (fun c => p c = false) s -> dropWhile p s = s.
Proof.
  destruct 1 as [|c t Hc _]; simpl; [reflexivity|]. now rewrite Hc.
Qed.

Lemma dropWhileEnd_none p s :
  Forall (fun c => p c = false) s -> dropWhileEnd p s = s.
Proof.
  induction 1 as [|c t Hc _ IH]; simpl; [reflexivity|].
  now rewrite Hc, IH.
Qed.

Lemma removeAll_none p s :
  Forall (fun c => p c = false) s -> removeAll p s = s.
Proof.
  unfold removeAll.
  induction 1 as [|c t Hc _ IH]; simpl; [reflexivity|].
  now rewrite Hc, IH.
Qed.

Lemma removeAll_Forall p s : Forall (fun c => p c = false) (removeAll p s).
Proof.
  unfold removeAll. apply Forall_forall. intros c Hc.
  apply filter_In in Hc. destruct Hc as [_ Hc].
  now apply negb_true_iff in Hc.
Qed.

Lemma removeAll_preserves (P : codeunit -> Prop) p s :
  Forall P s -> Forall P (removeAll p s).
Proof.
  unfold removeAll. rewrite !Forall_forall. intros H c Hc.
  apply filter_In in Hc. now apply H.
Qed.

Lemma replaceRuns_from_none p r b s :
  Forall (fun c => p c = false) s -> replaceRuns_from p r b s = s.
Proof.
  intros H. revert b.
  induction H as [|c t Hc _ IH]; intros b; simpl; [reflexivity|].
  now rewrite Hc, IH.
Qed.

(** The index [lastIndexOf] returns lies inside the string, or is -1. *)
Lemma lastIndexOf_from_range c s i acc :
  (acc = lastIndexOf_from c s i acc) \/
  (i <= lastIndexOf_from c s i acc < i + len s).
Proof.
  revert i acc.
  induction s as [|x t IH]; intros i acc; simpl; [now left|].
  assert (Hl : len (x :: t) = 1 + len t)
    by (unfold len; cbn [List.length]; lia).
  pose proof (len_nonneg t) as Ht.
  destruct (x =? c)%N.
  - right. rewrite Hl.
    destruct (IH (i + 1) i) as [H|H];
      remember (lastIndexOf_from c t (i + 1) i) as k; lia.
  - rewrite Hl.
    destruct (IH (i + 1) acc) as [H|H];
      remember (lastIndexOf_from c t (i + 1) acc) as k; [left|right]; lia.
Qed.

Lemma lastIndexOf_range c s : -1 <= lastIndexOf c s < len s.
Proof.
  unfold lastIndexOf.
  destruct (lastIndexOf_from_range c s 0 (-1)) as [H|H].
  - rewrite <- H. pose proof (len_nonneg s). lia.
  - lia.
Qed.

End JsFacts.

(* ================================================================== *)
(** * src/utils/format.ts: generateSlug                                 *)
(* ================================================================== *)

Module SlugProofs.
Import Js Format JsFacts.

(** Turns a goal or hypothesis on character classes into arithmetic. *)
Ltac classes :=
  unfold isSlugChar, isSlugInput, isLowerAlnum, isCombiningMark, isHyphen,
    isWhiteSpace, HYPHEN, SPACE, inRange in *;
  repeat match goal with
    | |- _ = false => apply Bool.not_true_iff_false; intro
    | H : _ = false |- _ => apply Bool.not_true_iff_false in H
    end;
  rewrite ?Bool.negb_true_iff, ?Bool.orb_true_iff, ?Bool.andb_true_iff,
    ?N.leb_le, ?N.eqb_eq in *;
  try lia.

Lemma alnum_not_hyphen c : isLowerAlnum c = true -> isHyphen c = false.
Proof. intros; classes. Qed.

Lemma alnum_slugChar c : isLowerAlnum c = true -> isSlugChar c = true.
Proof. intros; classes. Qed.

Lemma hyphen_slugChar c : isHyphen c = true -> isSlugChar c = true.
Proof. intros; classes. Qed.

Lemma hyphen_is_HYPHEN c : isHyphen c = true -> c = HYPHEN.
Proof. intros; classes. Qed.

Lemma slugChar_not_space c : isSlugChar c = true -> isWhiteSpace c = false.
Proof. intros; classes. Qed.

Lemma slugChar_not_mark c : isSlugChar c = true -> isCombiningMark c = false.
Proof. intros; classes. Qed.

Lemma slugChar_slugInput c : isSlugChar c = true -> isSlugInput c = true.
Proof. intros; classes. Qed.

Lemma slugInput_cases c :
  isSlugInput c = true -> isWhiteSpace c = false -> isSlugChar c = true.
Proof.
  unfold isSlugInput, isSlugChar. intros H Hw. rewrite Hw in H.
  now rewrite Bool.orb_false_r in H.
Qed.

(** *** What the automaton accepts *)

Lemma slugTail_chain b s : slugTail b s = true -> slugChain b s = true.
Proof.
  revert b. induction s as [|c t IH]; intros b; simpl; [reflexivity|].
  destruct (isLowerAlnum c); [apply IH|].
  destruct (isHyphen c); [|discriminate].
  rewrite !Bool.andb_true_iff. intros [Hb Ht]. split; [assumption|now apply IH].
Qed.

Lemma slugChain_weaken s : slugChain true s = true -> slugChain false s = true.
Proof.
  destruct s as [|c t]; simpl; [reflexivity|].
  destruct (isLowerAlnum c); [trivial|].
  destruct (isHyphen c); simpl; [discriminate|trivial].
Qed.

Lemma slugChain_chars b s : slugChain b s = true -> SlugChars s.
Proof.
  revert b. induction s as [|c t IH]; intros b; simpl; [constructor|].
  destruct (isLowerAlnum c) eqn:Ha.
  - intros H. constructor; [now apply alnum_slugChar|now apply IH in H].
  - destruct (isHyphen c) eqn:Hh; [|discriminate].
    rewrite Bool.andb_true_iff. intros [_ H].
    constructor; [now apply hyphen_slugChar|now apply IH in H].
Qed.

(** *** The automaton accepts the language of the pattern *)

Lemma matches_star_class p s :
  Forall (fun c => p c = true) s -> matches (Star (Class p)) s.
Proof.
  induction 1 as [|c t Hc _ IH]; [constructor|].
  change (c :: t) with ([c] ++ t). constructor; [now constructor|assumption].
Qed.

Lemma slugTail_split s :
  (slugTail false s = true ->
     exists run rest, s = run ++ rest
       /\ Forall (fun c => isLowerAlnum c = true) run
       /\ matches groupPattern rest)
  /\
  (slugTail true s = true ->
     exists c run rest, s = c :: run ++ rest
       /\ isLowerAlnum c = true
       /\ Forall (fun c => isLowerAlnum c = true) run
       /\ matches groupPattern rest).
Proof.
  induction s as [|c t [IHf IHt]]; simpl.
  - split; [|discriminate].
    intros _. exists [], []. repeat split; constructor.
  - destruct (isLowerAlnum c) eqn:Ha.
    + split; intros H; destruct (IHf H) as (run & rest & -> & Hrun & Hrest).
      * exists (c :: run), rest. repeat split; [constructor|]; assumption.
      * exists c, run, rest. repeat split; assumption.
    + destruct (isHyphen c) eqn:Hh; simpl; [|split; discriminate].
      split; [|discriminate].
      intros H. destruct (IHt H) as (d & run & rest & -> & Hd & Hrun & Hrest).
      exists [], (([c] ++ ([d] ++ run)) ++ rest).
      repeat split; [constructor|].
      apply MStarCons; [|assumption].
      apply MSeq; [now constructor|].
      apply MSeq; [now constructor|now apply matches_star_class].
Qed.

Lemma slugTail_matches s : slugTail true s = true -> matches slugPattern s.
Proof.
  intros H.
  destruct (proj2 (slugTail_split s) H) as (c & run & rest & -> & Hc & Hrun & Hrest).
  change (c :: run ++ rest) with (([c] ++ run) ++ rest).
  apply MSeq; [|exact Hrest].
  apply MSeq; [now constructor|now apply matches_star_class].
Qed.

(** *** The pipeline, step by step *)

Lemma replaceRuns_space_chars b s :
  Forall (fun c => isSlugInput c = true) s ->
  SlugChars (replaceRuns_from isWhiteSpace HYPHEN b s).
Proof.
  intros H. revert b.
  induction H as [|c t Hc _ IH]; intros b; simpl; [constructor|].
  destruct (isWhiteSpace c) eqn:Hw.
  - destruct b; [apply IH|]. constructor; [reflexivity|apply IH].
  - constructor; [now apply slugInput_cases|apply IH].
Qed.

Lemma replaceRuns_hyphen_chain b s :
  SlugChars s -> slugChain b (replaceRuns_from isHyphen HYPHEN b s) = true.
Proof.
  intros H. revert b.
  induction H as [|c t Hc _ IH]; intros b; simpl; [reflexivity|].
  destruct (isHyphen c) eqn:Hh.
  - destruct b; [apply IH|].
    change (slugChain false (HYPHEN :: replaceRuns_from isHyphen HYPHEN true t))
      with (slugChain true (replaceRuns_from isHyphen HYPHEN true t)).
    apply IH.
  - simpl. unfold isSlugChar in Hc. rewrite Hh, Bool.orb_false_r in Hc.
    rewrite Hc. apply IH.
Qed.

Lemma dropWhile_hyphen_chain b s :
  slugChain b s = true -> slugChain true (dropWhile isHyphen s) = true.
Proof.
  revert b. induction s as [|c t IH]; intros b; simpl; [reflexivity|].
  destruct (isLowerAlnum c) eqn:Ha.
  - intros H. rewrite (alnum_not_hyphen c Ha). simpl. now rewrite Ha.
  - destruct (isHyphen c) eqn:Hh; [|discriminate].
    rewrite Bool.andb_true_iff. intros [_ H]. now apply IH in H.
Qed.

Lemma dropWhileEnd_hyphen_tail b s :
  slugChain b s = true ->
  dropWhileEnd isHyphen s = [] \/ slugTail b (dropWhileEnd isHyphen s) = true.
Proof.
  revert b. induction s as [|c t IH]; intros b; simpl; [now left|].
  destruct (isLowerAlnum c) eqn:Ha.
  - intros H. rewrite (alnum_not_hyphen c Ha). simpl. rewrite Ha. right.
    destruct (IH false H) as [-> | Ht]; [reflexivity|assumption].
  - destruct (isHyphen c) eqn:Hh; [|discriminate].
    rewrite Bool.andb_true_iff. intros [Hb H]. simpl.
    destruct (IH true H) as [-> | Ht]; [now left|].
    destruct (dropWhileEnd isHyphen t) as [|d t'] eqn:Hd; [now left|].
    right. simpl isEmpty. cbv iota.
    change (slugTail b (c :: d :: t'))
      with (if isLowerAlnum c then slugTail false (d :: t')
            else if isHyphen c then negb b && slugTail true (d :: t') else false).
    rewrite Ha, Hh, Hb. exact Ht.
Qed.

(** *** On a slug every step of the pipeline is the identity *)

Lemma slugChain_replaceRuns_id b s :
  slugChain b s = true -> replaceRuns_from isHyphen HYPHEN b s = s.
Proof.
  revert b. induction s as [|c t IH]; intros b; simpl; [reflexivity|].
  destruct (isLowerAlnum c) eqn:Ha.
  - intros H. rewrite (alnum_not_hyphen c Ha). f_equal. now apply IH.
  - destruct (isHyphen c) eqn:Hh; [|discriminate].
    rewrite Bool.andb_true_iff, Bool.negb_true_iff. intros [-> H].
    rewrite (hyphen_is_HYPHEN c Hh). f_equal. now apply IH.
Qed.

Lemma slugTail_dropWhile_id s :
  slugTail true s = true -> dropWhile isHyphen s = s.
Proof.
  destruct s as [|c t]; simpl; [reflexivity|].
  destruct (isLowerAlnum c) eqn:Ha.
  - intros _. now rewrite (alnum_not_hyphen c Ha).
  - destruct (isHyphen c); discriminate.
Qed.

Lemma slugTail_dropWhileEnd_id b s :
  slugTail b s = true -> dropWhileEnd isHyphen s = s.
Proof.
  revert b. induction s as [|c t IH]; intros b; simpl; [reflexivity|].
  destruct (isLowerAlnum c) eqn:Ha.
  - intros H. rewrite (alnum_not_hyphen c Ha). simpl. f_equal. now apply IH in H.
  - destruct (isHyphen c) eqn:Hh; [|discriminate].
    rewrite Bool.andb_true_iff. intros [_ H].
    rewrite (IH true H). destruct t; [discriminate H|reflexivity].
Qed.

Lemma SlugChars_no_space s :
  SlugChars s -> Forall (fun c => isWhiteSpace c = false) s.
Proof. apply Forall_impl. exact slugChar_not_space. Qed.

Lemma SlugChars_trim s : SlugChars s -> trim s = s.
Proof.
  intros H. apply SlugChars_no_space in H. unfold trim, trimEnd, trimStart.
  now rewrite (dropWhile_none _ _ H), (dropWhileEnd_none _ _ H).
Qed.

(** *** The result of [generateSlug] *)

Section Slug.

Variable toLowerCase : jsstring -> jsstring.
Variable normalizeNFD : jsstring -> jsstring.

Lemma generateSlug_accepted x :
  generateSlug toLowerCase normalizeNFD x = []
  \/ slugTail true (generateSlug toLowerCase normalizeNFD x) = true.
Proof.
  unfold generateSlug, stripHyphens, replaceRuns.
  set (s1 := removeAll isCombiningMark (normalizeNFD (toLowerCase x))).
  set (s2 := removeAll (fun c => negb (isSlugInput c)) s1).
  assert (H2 : Forall (fun c => isSlugInput c = true) s2).
  { eapply Forall_impl; [|apply removeAll_Forall].
    intros c Hc. now apply Bool.negb_false_iff in Hc. }
  pose proof (replaceRuns_space_chars false s2 H2) as H3.
  pose proof (replaceRuns_hyphen_chain false _ H3) as H4.
  pose proof (dropWhile_hyphen_chain _ _ H4) as H5.
  destruct (dropWhileEnd_hyphen_tail _ _ H5) as [H6|H6].
  - left. rewrite H6. reflexivity.
  - right. rewrite SlugChars_trim; [assumption|].
    eapply slugChain_chars, slugTail_chain, H6.
Qed.

(** The two built-ins leave a string of ASCII lower-case letters, digits
    and hyphens as it is. *)
Hypothesis toLowerCase_slug : forall s, SlugChars s -> toLowerCase s = s.
Hypothesis normalizeNFD_slug : forall s, SlugChars s -> normalizeNFD s = s.

Lemma generateSlug_fixes_slug s :
  slugTail true s = true -> generateSlug toLowerCase normalizeNFD s = s.
Proof.
  intros H.
  assert (Hc : SlugChars s) by (eapply slugChain_chars, slugTail_chain, H).
  unfold generateSlug, stripHyphens, replaceRuns.
  rewrite (toLowerCase_slug s Hc), (normalizeNFD_slug s Hc).
  rewrite (removeAll_none isCombiningMark s)
    by (eapply Forall_impl; [|exact Hc]; exact slugChar_not_mark).
  rewrite (removeAll_none _ s)
    by (eapply Forall_impl; [|exact Hc]; intros c Hs;
        now rewrite (slugChar_slugInput c Hs)).
  rewrite (replaceRuns_from_none isWhiteSpace)
    by now apply SlugChars_no_space.
  rewrite slugChain_replaceRuns_id
    by now apply slugChain_weaken, slugTail_chain.
  rewrite (slugTail_dropWhile_id s H), (slugTail_dropWhileEnd_id true s H).
  now apply SlugChars_trim.
Qed.

(** C7. [generateSlug] is idempotent, and its result either matches
    [^[a-z0-9]+(-[a-z0-9]+)*$] or is the empty string.  The two Unicode
    built-ins enter only through what they do to a string that is a slug
    already: they leave it unchanged. *)
Theorem generateSlug_idempotent_and_slug_shaped x :
  generateSlug toLowerCase normalizeNFD (generateSlug toLowerCase normalizeNFD x)
    = generateSlug toLowerCase normalizeNFD x
  /\ (matches slugPattern (generateSlug toLowerCase normalizeNFD x)
      \/ generateSlug toLowerCase normalizeNFD x = []).
Proof.
  destruct (generateSlug_accepted x) as [H|H]; split.
  - rewrite H. unfold generateSlug, stripHyphens, replaceRuns.
    rewrite (toLowerCase_slug [] (Forall_nil _)),
      (normalizeNFD_slug [] (Forall_nil _)).
    reflexivity.
  - now right.
  - now apply generateSlug_fixes_slug.
  - left. now apply slugTail_matches.
Qed.

End Slug.

(** *** The Latin-1 fragment satisfies the two assumptions *)

Lemma lowerLatin1_slugChar c : isSlugChar c = true -> lowerLatin1 c = c.
Proof.
  intros H. unfold lowerLatin1.
  assert (Hr : (c = 45 \/ 48 <= c <= 57 \/ 97 <= c <= 122)%N) by classes.
  assert (H1 : inRange 65 90 c = false) by classes.
  assert (H2 : inRange 192 222 c = false) by classes.
  now rewrite H1, H2.
Qed.

Lemma toLowerCaseLatin1_slug s : SlugChars s -> toLowerCaseLatin1 s = s.
Proof.
  unfold toLowerCaseLatin1.
  induction 1 as [|c t Hc _ IH]; simpl; [reflexivity|].
  now rewrite (lowerLatin1_slugChar c Hc), IH.
Qed.

Lemma lookupDecomposition_below c table :
  Forall (fun e => (c < fst e)%N) table -> lookupDecomposition c table = None.
Proof.
  induction 1 as [|[k v] rest Hk _ IH]; simpl; [reflexivity|].
  simpl in Hk. destruct (N.eqb_spec k c); [lia|assumption].
Qed.

Lemma decomposeLatin1_slugChar c : isSlugChar c = true -> decomposeLatin1 c = [c].
Proof.
  intros H.
  assert (Hr : (c <= 122)%N) by classes.
  unfold decomposeLatin1.
  rewrite !lookupDecomposition_below; [reflexivity| |];
    unfold latin1Decompositions; repeat constructor; simpl; lia.
Qed.

Lemma normalizeNFDLatin1_slug s : SlugChars s -> normalizeNFDLatin1 s = s.
Proof.
  unfold normalizeNFDLatin1.
  induction 1 as [|c t Hc _ IH]; simpl; [reflexivity|].
  now rewrite (decomposeLatin1_slugChar c Hc), IH.
Qed.

Lemma generateSlug_idempotent_and_slug_shaped_witness :
  generateSlugLatin1 sofaConfortavel = lit "sofa-confortavel"
  /\ generateSlugLatin1 (generateSlugLatin1 sofaConfortavel)
      = generateSlugLatin1 sofaConfortavel
  /\ (matches slugPattern (generateSlugLatin1 sofaConfortavel)
      \/ generateSlugLatin1 sofaConfortavel = []).
Proof.
  split; [reflexivity|].
  exact (generateSlug_idempotent_and_slug_shaped
           toLowerCaseLatin1 normalizeNFDLatin1
           toLowerCaseLatin1_slug normalizeNFDLatin1_slug sofaConfortavel).
Defined.

(** The expectations of [describe('generateSlug')] that fall within the
    Latin-1 fragment. *)
Example generateSlug_tests :
  generateSlugLatin1 (lit "Hello World") = lit "hello-world"
  /\ generateSlugLatin1 (lit "Multiple   Spaces") = lit "multiple-spaces"
  /\ generateSlugLatin1 (lit "  Leading and trailing  ") = lit "leading-and-trailing"
  /\ generateSlugLatin1 (lit "Price: $99.99!") = lit "price-9999"
  /\ generateSlugLatin1 (lit "Word---With---Hyphens") = lit "word-with-hyphens"
  /\ generateSlugLatin1 (lit "--Start--End--") = lit "start-end"
  /\ generateSlugLatin1 [9; 10]%N = []
  /\ generateSlugLatin1 (lit "@#$%^&*()") = []
  /\ generateSlugLatin1 (lit "State-of-the-Art") = lit "state-of-the-art".
Proof. repeat split. Qed.

End SlugProofs.

(* ================================================================== *)
(** * src/utils/format.ts: truncateText                                 *)
(* ================================================================== *)

Module TruncateProofs.
Import Js Format JsFacts.

Lemma isEmpty_false s : s <> [] -> isEmpty s = false.
Proof. destruct s; [congruence|reflexivity]. Qed.

Lemma truncateText_general text maxLength suffix :
  maxLength < len text -> suffix <> [] -> len suffix <= maxLength ->
  truncateText text maxLength suffix
    = trim (keptText text maxLength suffix) ++ suffix.
Proof.
  intros Hlong Hsuf Hfit. unfold truncateText, keptText.
  destruct (Z.leb_spec (len text) maxLength); [lia|].
  rewrite (isEmpty_false suffix Hsuf). simpl negb.
  destruct (Z.ltb_spec maxLength (len suffix)); [lia|].
  simpl. reflexivity.
Qed.

Lemma keptText_len text maxLength suffix :
  len suffix <= maxLength ->
  len (keptText text maxLength suffix) <= maxLength - len suffix.
Proof.
  intros Hfit. unfold keptText.
  set (availableLength := maxLength - len suffix).
  assert (Ht : len (slice0 text availableLength) <= availableLength)
    by (apply slice0_len_bound; unfold availableLength; lia).
  pose proof (slice0_len_le (slice0 text availableLength)
                (lastIndexOf SPACE (slice0 text availableLength))).
  repeat match goal with |- context [if ?b then _ else _] => destruct b end; lia.
Qed.

Lemma truncateText_long_len text maxLength suffix :
  maxLength < len text -> suffix <> [] -> len suffix <= maxLength ->
  len (truncateText text maxLength suffix) <= maxLength.
Proof.
  intros Hlong Hsuf Hfit.
  rewrite (truncateText_general text maxLength suffix Hlong Hsuf Hfit).
  rewrite len_app.
  pose proof (trim_len (keptText text maxLength suffix)).
  pose proof (keptText_len text maxLength suffix Hfit). lia.
Qed.

(** C10. With a non-empty suffix that fits into [maxLength], the result
    of [truncateText] is never longer than [maxLength]: the break at a
    word boundary and the trim only shorten what is kept. *)
Theorem truncateText_length_at_most_maxLength text maxLength suffix :
  suffix <> [] -> len suffix <= maxLength ->
  len (truncateText text maxLength suffix) <= maxLength.
Proof.
  intros Hsuf Hfit.
  destruct (Z.leb_spec (len text) maxLength) as [Hshort|Hlong].
  - (* returned as it is *)
    unfold truncateText.
    destruct (Z.leb_spec (len text) maxLength); [assumption|lia].
  - (* kept, cut, trimmed, and the suffix appended *)
    now apply truncateText_long_len.
Qed.

Lemma truncateText_length_at_most_maxLength_witness :
  lit "..." <> [] /\ len (lit "...") <= 20
  /\ len (truncateText (lit "The quick brown fox jumps over the lazy dog")
            20 (lit "...")) <= 20.
Proof.
  assert (Hs : lit "..." <> []) by discriminate.
  assert (Hf : len (lit "...") <= 20) by (vm_compute; discriminate).
  split; [exact Hs|]. split; [exact Hf|].
  exact (truncateText_length_at_most_maxLength
           (lit "The quick brown fox jumps over the lazy dog") 20 (lit "...")
           Hs Hf).
Defined.

(** The expectations of [describe('truncateText')] on ASCII inputs. *)
Example truncateText_tests :
  let longText := lit "This is a very long text that needs to be truncated for display purposes in the user interface." in
  let fox := lit "The quick brown fox jumps over the lazy dog" in
  let hello := lit "Hello world this is a test" in
  truncateText (lit "Hello") 5 defaultSuffix = lit "Hello"
  /\ truncateText longText 20 defaultSuffix = lit "This is a very..."
  /\ truncateText longText 30 defaultSuffix = lit "This is a very long text..."
  /\ truncateText longText 20 (lit " [more]") = lit "This is a ver [more]"
  /\ truncateText longText 20 [] = lit "This is a very long"
  /\ truncateText longText 10 [] = lit "This is a"
  /\ truncateText longText 2 defaultSuffix = lit "Th..."
  /\ truncateText fox 20 defaultSuffix = lit "The quick brown..."
  /\ truncateText fox 15 defaultSuffix = lit "The quick..."
  /\ truncateText (lit "Supercalifragilisticexpialidocious word") 20 defaultSuffix
       = lit "Supercalifragilis..."
  /\ truncateText (lit "   ") 2 defaultSuffix = lit "  ..."
  /\ truncateText (lit "     ") 3 defaultSuffix = lit "..."
  /\ truncateText hello 12 defaultSuffix = lit "Hello wor..."
  /\ truncateText hello 10 (lit ".") = lit "Hello wor."
  /\ truncateText hello 10 (lit " (continued)") = lit "Hello worl (continued)"
  /\ truncateText (lit "Hello    world    this    is    a    test") 20 defaultSuffix
       = lit "Hello    world...".
Proof. vm_compute. repeat split. Qed.

(** What [lastIndexOf] returns: [-1] when the code unit does not occur,
    and otherwise the position of an occurrence after which there is no
    other. *)
Lemma lastIndexOf_from_spec c s i acc :
  (lastIndexOf_from c s i acc = acc /\ Forall (fun x => x <> c) s)
  \/ (exists k : nat,
        lastIndexOf_from c s i acc = i + Z.of_nat k
        /\ nth_error s k = Some c
        /\ Forall (fun x => x <> c) (skipn (S k) s)).
Proof.
  revert i acc.
  induction s as [|x t IH]; intros i acc; simpl; [left; split; [reflexivity|constructor]|].
  destruct (N.eqb_spec x c) as [->|Hx].
  - right. destruct (IH (i + 1) i) as [[Hr Hall]|(k & Hr & Hk & Hall)].
    + exists 0%nat. rewrite Hr. repeat split; [lia|assumption].
    + exists (S k). rewrite Hr. repeat split; [lia|assumption|assumption].
  - destruct (IH (i + 1) acc) as [[Hr Hall]|(k & Hr & Hk & Hall)].
    + left. split; [assumption|now constructor].
    + right. exists (S k). rewrite Hr. repeat split; [lia|assumption|assumption].
Qed.

Lemma lastIndexOf_spec c s :
  (lastIndexOf c s = -1 /\ Forall (fun x => x <> c) s)
  \/ (exists k : nat,
        lastIndexOf c s = Z.of_nat k
        /\ nth_error s k = Some c
        /\ Forall (fun x => x <> c) (skipn (S k) s)).
Proof.
  unfold lastIndexOf.
  destruct (lastIndexOf_from_spec c s 0 (-1)) as [H|(k & Hr & H)];
    [now left|right].
  exists k. now rewrite Hr.
Qed.

(** C8, as the code has it.  For a text longer than [maxLength] and a
    non-empty suffix that fits, the result is [kept.trim() + suffix] and
    is at most [maxLength] long (shorter when the break or the trim took
    characters away).  [kept] is a prefix of the text: the part before
    the last U+0020 of the first [availableLength] characters when that
    space is not at index 0, [availableLength] exceeds 10 and the break
    discards no more than [max(3, 0.3 * availableLength)] characters;
    the first [availableLength] characters otherwise. *)
Theorem truncateText_long_text text maxLength suffix :
  maxLength < len text -> suffix <> [] -> len suffix <= maxLength ->
  let availableLength := maxLength - len suffix in
  let region := firstn (Z.to_nat availableLength) text in
  let lastSpaceIndex := lastIndexOf SPACE region in
  let breaks :=
    0 < lastSpaceIndex /\ 10 < availableLength
    /\ (inject_Z (availableLength - lastSpaceIndex)
          <= Qmax 3 (inject_Z availableLength * 0.3))%Q in
  exists kept,
    truncateText text maxLength suffix = trim kept ++ suffix
    /\ len (truncateText text maxLength suffix) <= maxLength
    /\ (breaks -> kept = firstn (Z.to_nat lastSpaceIndex) text)
    /\ (~ breaks -> kept = region).
Proof.
  intros Hlong Hsuf Hfit availableLength region lastSpaceIndex breaks.
  exists (keptText text maxLength suffix).
  split; [now apply truncateText_general|].
  split; [now apply truncateText_long_len|].
  pose proof (len_nonneg suffix) as Hs.
  assert (Hregion : slice0 text (maxLength - len suffix) = region)
    by (apply slice0_firstn; lia).
  unfold keptText. rewrite Hregion.
  fold availableLength lastSpaceIndex.
  pose proof (lastIndexOf_range SPACE region) as Hi. fold lastSpaceIndex in Hi.
  assert (Hlen : len region <= availableLength).
  { rewrite <- Hregion. apply slice0_len_bound. unfold availableLength. lia. }
  destruct (Z.gtb_spec lastSpaceIndex 0) as [Hpos|Hnpos];
    [destruct (Z.gtb_spec availableLength 10) as [Hbig|Hsmall]|]; simpl.
  - destruct (Qle_bool _ _) eqn:Hlost.
    + apply Qle_bool_iff in Hlost. split; [|intros Hn; exfalso; apply Hn].
      * intros _. rewrite slice0_firstn by lia. unfold region.
        rewrite firstn_firstn. f_equal. lia.
      * unfold breaks. repeat split; [lia|lia|exact Hlost].
    + split; [intros (_ & _ & Hb)|reflexivity].
      apply Qle_bool_iff in Hb. congruence.
  - split; [intros (_ & Hb & _); lia|reflexivity].
  - split; [intros (Hb & _); lia|reflexivity].
Qed.

Lemma truncateText_long_text_witness :
  let text := lit "The quick brown fox jumps over the lazy dog" in
  let suffix := lit "..." in
  20 < len text /\ suffix <> [] /\ len suffix <= 20
  /\ exists kept,
       truncateText text 20 suffix = trim kept ++ suffix
       /\ len (truncateText text 20 suffix) <= 20
       /\ kept = lit "The quick brown".
Proof.
  intros text suffix.
  assert (H1 : 20 < len text) by reflexivity.
  assert (H2 : suffix <> []) by discriminate.
  assert (H3 : len suffix <= 20) by (vm_compute; discriminate).
  repeat (split; [assumption|]).
  destruct (truncateText_long_text text 20 suffix H1 H2 H3)
    as (kept & Heq & Hlen & Hbreak & _).
  exists kept. repeat (split; [assumption|]).
  apply Hbreak.
  split; [reflexivity|]. split; [reflexivity|].
  apply Qle_bool_iff. reflexivity.
Defined.

(** The bound on the discarded characters in integers. *)
Lemma lost_bound_integers lostChars availableLength :
  (inject_Z lostChars <= Qmax 3 (inject_Z availableLength * 0.3))%Q
  <-> lostChars <= 3 \/ 10 * lostChars <= 3 * availableLength.
Proof.
  rewrite Q.max_le_iff.
  assert (H3 : (inject_Z lostChars <= 3)%Q <-> lostChars <= 3).
  { change 3%Q with (inject_Z 3). now rewrite <- Zle_Qle. }
  assert (H03 : (inject_Z lostChars <= inject_Z availableLength * 0.3)%Q
                <-> 10 * lostChars <= 3 * availableLength).
  { unfold Qle. cbn -[Z.mul]. lia. }
  rewrite H3, H03. reflexivity.
Qed.

(** C8 as stated does not hold.  On the first input (from
    [format.test.ts]) the break at the last space leaves a result of 18
    code units, not 20.  On the second the last space of the truncated
    region would discard 2 characters, within [max(3, 0.3 * 9)], and yet
    the text is not cut there, since [availableLength] is not above 10. *)
Lemma truncateText_claimed_shape_fails :
  (let text := lit "The quick brown fox jumps over the lazy dog" in
   let suffix := lit "..." in
   20 < len text /\ suffix <> [] /\ len suffix <= 20
   /\ truncateText text 20 suffix = lit "The quick brown..."
   /\ len (truncateText text 20 suffix) <> 20)
  /\
  (let text := lit "Hello w orld" in
   let suffix := lit "." in
   let availableLength := 10 - len suffix in
   let lastSpaceIndex := lastIndexOf SPACE (slice0 text availableLength) in
   10 < len text /\ suffix <> [] /\ len suffix <= 10
   /\ lastSpaceIndex = 7
   /\ (inject_Z (availableLength - lastSpaceIndex)
         <= Qmax 3 (inject_Z availableLength * 0.3))%Q
   /\ truncateText text 10 suffix = lit "Hello w o."
   /\ truncateText text 10 suffix <> slice0 text lastSpaceIndex ++ suffix).
Proof.
  split; cbv zeta;
    repeat match goal with
      | |- _ /\ _ => split
      | |- (_ <= _)%Q => apply Qle_bool_iff
      end;
    try reflexivity; try (vm_compute; discriminate).
Qed.

End TruncateProofs.

(* ================================================================== *)
(** * src/lib/api.ts: getProductBySku                                   *)
(* ================================================================== *)

Module ApiProofs.
Import Api.
Local Open Scope string_scope.

Lemma kindOf_notFoundError m : kindOf (notFoundError m) = Some NotFound.
Proof. reflexivity. Qed.

Lemma kindOf_connectionError : kindOf connectionError = Some ConnectionError.
Proof. reflexivity. Qed.

Lemma kindOf_httpError st : kindOf (httpError st) = Some (HttpError st).
Proof.
  unfold kindOf, httpError. cbn.
  now rewrite String.eqb_refl.
Qed.

(** *** What the call does with each answer of the network *)

Lemma getProductBySku_rejected_fetch env fetch sku r :
  fetch (productUrl env sku) = inl r ->
  getProductBySku env fetch sku = Rejected (ThrownApiError connectionError).
Proof.
  unfold getProductBySku, productUrl. intros ->. reflexivity.
Qed.

Lemma getProductBySku_ok env fetch sku response :
  fetch (productUrl env sku) = inr response ->
  ok response = true ->
  getProductBySku env fetch sku =
    match responseJson response with
    | inr product => Fulfilled product
    | inl _ => Rejected (ThrownApiError connectionError)
    end.
Proof.
  unfold getProductBySku, productUrl. intros -> Hok. simpl.
  rewrite Hok. simpl. destruct (responseJson response); reflexivity.
Qed.

Lemma getProductBySku_404 env fetch sku response :
  fetch (productUrl env sku) = inr response ->
  responseStatus response = 404%Z ->
  getProductBySku env fetch sku =
    match responseJson response with
    | inl _ | inr JNull => Rejected (ThrownApiError connectionError)
    | inr errorData =>
        if toStringThrows (notFoundMessage errorData)
        then Rejected (ThrownApiError connectionError)
        else Rejected (ThrownApiError
               (notFoundError (textOf (notFoundMessage errorData))))
    end.
Proof.
  unfold getProductBySku, productUrl, ok. intros -> Hst. simpl.
  rewrite Hst. simpl.
  destruct (responseJson response) as [r|[| | | | |fields]]; try reflexivity.
  cbn [await bind getMessage notFoundMessage]. unfold newApiError.
  now destruct (toStringThrows _).
Qed.

Lemma getProductBySku_other_status env fetch sku response :
  fetch (productUrl env sku) = inr response ->
  ok response = false ->
  responseStatus response <> 404%Z ->
  getProductBySku env fetch sku =
    Rejected (ThrownApiError (httpError (responseStatus response))).
Proof.
  unfold getProductBySku, productUrl. intros -> Hok Hst. simpl.
  rewrite Hok. simpl.
  destruct (Z.eqb_spec (responseStatus response) 404); [contradiction|reflexivity].
Qed.

Lemma failsWith_intro e k :
  kindOf e = Some k -> failsWith (Rejected (ThrownApiError e)) k.
Proof. intros H. now exists e. Qed.

Lemma failsWith_unique result k1 k2 :
  failsWith result k1 -> failsWith result k2 -> k1 = k2.
Proof.
  intros (e1 & -> & H1) (e2 & Heq & H2).
  injection Heq as <-. congruence.
Qed.

Lemma getProductBySku_only_ApiError env fetch sku :
  match getProductBySku env fetch sku with
  | Rejected (ThrownRaw _) => False
  | Rejected (ThrownApiError _) | Fulfilled _ => True
  end.
Proof.
  destruct (fetch (productUrl env sku)) as [r|response] eqn:Hf.
  - now rewrite (getProductBySku_rejected_fetch _ _ _ _ Hf).
  - destruct (ok response) eqn:Hok.
    + rewrite (getProductBySku_ok _ _ _ _ Hf Hok).
      now destruct (responseJson response).
    + destruct (Z.eqb_spec (responseStatus response) 404) as [H404|Hother].
      * rewrite (getProductBySku_404 _ _ _ _ Hf H404).
        destruct (responseJson response) as [r|errorData]; [exact I|].
        now destruct errorData; try destruct (toStringThrows _).
      * now rewrite (getProductBySku_other_status _ _ _ _ Hf Hok Hother).
Qed.

(** C4 as stated does not hold: a 404 response whose body cannot be
    decoded, or is JSON [null], is reported as a connection failure and
    not as [NotFound] ([api.test.ts], 'should handle JSON parsing errors
    in 404 response'). *)
Lemma getProductBySku_404_without_body_is_connection_error :
  let undecodable := answering (inr (mkResponse 404 (inl SyntaxError))) in
  let nullBody := answering (inr (mkResponse 404 (inr JNull))) in
  getProductBySku None undecodable "sf-comfort-3l-bg"
    = Rejected (ThrownApiError connectionError)
  /\ getProductBySku None nullBody "sf-comfort-3l-bg"
    = Rejected (ThrownApiError connectionError)
  /\ failsWith (getProductBySku None undecodable "sf-comfort-3l-bg") ConnectionError
  /\ ~ failsWith (getProductBySku None undecodable "sf-comfort-3l-bg") NotFound.
Proof.
  cbv zeta. split; [reflexivity|]. split; [reflexivity|].
  assert (H : failsWith
                (getProductBySku None
                   (answering (inr (mkResponse 404 (inl SyntaxError))))
                   "sf-comfort-3l-bg") ConnectionError)
    by (apply failsWith_intro; reflexivity).
  split; [exact H|].
  intros Hn. pose proof (failsWith_unique _ _ _ H Hn). discriminate.
Qed.

(** A 404 response whose [message] cannot be converted to a string is a
    connection failure as well: the [TypeError] of the constructor is
    thrown inside the [try] block. *)
Example getProductBySku_404_message_without_string :
  let body := JObject [("message", JObject [("toString", JNumber 1)])] in
  let nested := JObject [("message", JArray [JNull; JObject [("toString", JNull)]])] in
  getProductBySku None (answering (inr (mkResponse 404 (inr body)))) "sf-comfort-3l-bg"
    = Rejected (ThrownApiError connectionError)
  /\ getProductBySku None (answering (inr (mkResponse 404 (inr nested)))) "sf-comfort-3l-bg"
    = Rejected (ThrownApiError connectionError).
Proof. split; reflexivity. Qed.

(** C4, as the code has it.  A call either returns the decoded body of a
    2xx response, or is rejected with an [ApiError] of exactly one kind:
    [NotFound] for a 404 whose body decodes to something other than
    [null] and whose message, [errorData.message] or the default text,
    converts to a string; [HttpError] with the status for any other
    non-2xx response; [ConnectionError] when the request fails, when the
    body of a 2xx or of a 404 response cannot be decoded, when the body
    of a 404 response is [null], and when the message of a 404 body does
    not convert to a string.  No raw error of the platform leaves the
    call. *)
Theorem getProductBySku_outcome env fetch sku :
  let result := getProductBySku env fetch sku in
  match fetch (productUrl env sku) with
  | inl _ => failsWith result ConnectionError
  | inr response =>
      if ok response then
        match responseJson response with
        | inr product => result = Fulfilled product
        | inl _ => failsWith result ConnectionError
        end
      else if (responseStatus response =? 404)%Z then
        match responseJson response with
        | inl _ | inr JNull => failsWith result ConnectionError
        | inr errorData =>
            if toStringThrows (notFoundMessage errorData)
            then failsWith result ConnectionError
            else failsWith result NotFound
        end
      else failsWith result (HttpError (responseStatus response))
  end
  /\ match result with
     | Rejected (ThrownRaw _) => False
     | Rejected (ThrownApiError e) => exists k, kindOf e = Some k
     | Fulfilled _ => True
     end.
Proof.
  cbv zeta.
  destruct (fetch (productUrl env sku)) as [r|response] eqn:Hf.
  - rewrite (getProductBySku_rejected_fetch _ _ _ _ Hf).
    split; [now apply failsWith_intro|now exists ConnectionError].
  - destruct (ok response) eqn:Hok.
    + rewrite (getProductBySku_ok _ _ _ _ Hf Hok).
      destruct (responseJson response) as [r|product].
      * split; [now apply failsWith_intro|now exists ConnectionError].
      * split; [reflexivity|exact I].
    + destruct (Z.eqb_spec (responseStatus response) 404) as [H404|Hother].
      * rewrite (getProductBySku_404 _ _ _ _ Hf H404).
        destruct (responseJson response) as [r|errorData].
        { split; [now apply failsWith_intro|now exists ConnectionError]. }
        destruct errorData; try destruct (toStringThrows _);
          (split; [now apply failsWith_intro|]);
          first [now exists ConnectionError | now exists NotFound].
      * rewrite (getProductBySku_other_status _ _ _ _ Hf Hok Hother).
        split; [apply failsWith_intro, kindOf_httpError|].
        exists (HttpError (responseStatus response)). apply kindOf_httpError.
Qed.

(** C9.  Whatever a call is rejected with is an [ApiError].  A failed
    request and an undecodable body are rejected with the fixed message
    and status 500, the status a backend answer of 500 is rejected with
    as well. *)
Theorem getProductBySku_connection_error_has_status_500 env fetch sku :
  let result := getProductBySku env fetch sku in
  match result with
  | Rejected (ThrownRaw _) => False
  | Rejected (ThrownApiError _) | Fulfilled _ => True
  end
  /\ match fetch (productUrl env sku) with
     | inl _ => result = Rejected (ThrownApiError connectionError)
     | inr response =>
         match responseJson response with
         | inl _ =>
             if ok response || (responseStatus response =? 404)%Z
             then result = Rejected (ThrownApiError connectionError)
             else True
         | inr _ => True
         end
     end
  /\ message connectionError = Str "Erro de conexão com o servidor"
  /\ status connectionError = 500%Z
  /\ forall body,
       getProductBySku env (answering (inr (mkResponse 500 body))) sku
         = Rejected (ThrownApiError (httpError 500))
       /\ status (httpError 500) = status connectionError.
Proof.
  cbv zeta.
  split; [|split; [|split; [reflexivity|split; [reflexivity|]]]].
  - apply getProductBySku_only_ApiError.
  - destruct (fetch (productUrl env sku)) as [r|response] eqn:Hf.
    + now apply getProductBySku_rejected_fetch with (r := r).
    + destruct (responseJson response) as [r|body] eqn:Hj; [|exact I].
      destruct (ok response) eqn:Hok; simpl.
      * rewrite (getProductBySku_ok _ _ _ _ Hf Hok), Hj. reflexivity.
      * destruct (Z.eqb_spec (responseStatus response) 404) as [H404|_];
          [|exact I].
        rewrite (getProductBySku_404 _ _ _ _ Hf H404), Hj. reflexivity.
  - intros body. split; reflexivity.
Qed.

(** The rejections [api.test.ts] expects. *)
Example getProductBySku_tests :
  let notFoundBody :=
    JObject [("status", JNumber 404);
             ("message", JString "Produto não encontrado");
             ("error", JString "Not Found")] in
  getProductBySku None (answering (inr (mkResponse 404 (inr notFoundBody)))) "INVALID-SKU"
    = Rejected (ThrownApiError
        (mkApiError (Str "Produto não encontrado") 404 (Some "Not Found")))
  /\ getProductBySku None (answering (inr (mkResponse 404 (inr (JObject []))))) "INVALID-SKU"
    = Rejected (ThrownApiError
        (mkApiError (Str "Produto não encontrado") 404 (Some "Not Found")))
  /\ getProductBySku None (answering (inr (mkResponse 500 (inl SyntaxError)))) "TEST-001"
    = Rejected (ThrownApiError (mkApiError (Str "Erro na API: 500") 500 None))
  /\ getProductBySku None (answering (inl (OtherError "Network error"))) "TEST-001"
    = Rejected (ThrownApiError
        (mkApiError (Str "Erro de conexão com o servidor") 500 None))
  /\ getProductBySku None (answering (inr (mkResponse 200 (inl SyntaxError)))) "TEST-001"
    = Rejected (ThrownApiError
        (mkApiError (Str "Erro de conexão com o servidor") 500 None))
  /\ getProductBySku None (answering (inr (mkResponse 200 (inr JNull)))) "TEST-001"
    = Fulfilled JNull.
Proof. repeat split. Qed.

End ApiProofs.

(* ================================================================== *)
(** * Integers as doubles                                               *)
(* ================================================================== *)

Module NumberFacts.
Import Js.

Lemma INFINITY_large : 2 ^ 53 <= INFINITY.
Proof. unfold INFINITY. apply Z.pow_le_mono_r; lia. Qed.

(** Up to 2^53 every integer is a double. *)
Lemma roundMagnitude_small n : 0 <= n <= 2 ^ 53 -> roundMagnitude n = n.
Proof.
  intros [H0 H]. destruct (Z.eq_dec n (2 ^ 53)) as [->|Hne].
  - vm_compute. reflexivity.
  - unfold roundMagnitude.
    assert (He : Z.log2 n < 53).
    { destruct (Z.eq_dec n 0) as [->|Hz]; [simpl; lia|].
      apply Z.log2_lt_pow2; lia. }
    destruct (Z.ltb_spec (Z.log2 n) 53); [reflexivity|lia].
Qed.

(** Rounding does not go below 2^53 from above it. *)
Lemma roundMagnitude_large n : 2 ^ 53 <= n -> 2 ^ 53 <= roundMagnitude n.
Proof.
  intros H. unfold roundMagnitude.
  destruct (Z.ltb_spec (Z.log2 n) 53) as [|He]; [assumption|].
  set (e := Z.log2 n) in *. set (ulp := 2 ^ (e - 52)).
  assert (Hulp : 0 < ulp) by (apply Z.pow_pos_nonneg; lia).
  assert (Hpow : 2 ^ 52 * ulp = 2 ^ e).
  { unfold ulp. rewrite <- Z.pow_add_r by lia. f_equal. lia. }
  assert (Hn : 2 ^ e <= n) by (apply Z.log2_spec; lia).
  assert (Hq : 2 ^ 52 <= n / ulp).
  { apply Z.div_le_lower_bound; [assumption|]. rewrite Z.mul_comm. lia. }
  assert (He53 : 2 ^ 53 <= 2 ^ e) by (apply Z.pow_le_mono_r; lia).
  pose proof INFINITY_large.
  apply Z.min_glb; [|assumption].
  apply Z.le_trans with (2 ^ 52 * ulp); [lia|].
  apply Z.mul_le_mono_nonneg_r; [lia|].
  destruct (2 * (n mod ulp) <? ulp); [assumption|].
  destruct (ulp <? 2 * (n mod ulp)); [lia|].
  destruct (Z.even (n / ulp)); lia.
Qed.

Lemma toDouble_small n : - 2 ^ 53 <= n <= 2 ^ 53 -> toDouble n = n.
Proof.
  intros H. unfold toDouble. destruct (Z.ltb_spec n 0).
  - rewrite roundMagnitude_small; lia.
  - apply roundMagnitude_small. lia.
Qed.

Lemma toDouble_large n : 2 ^ 53 <= n -> 2 ^ 53 <= toDouble n.
Proof.
  intros H. unfold toDouble. destruct (Z.ltb_spec n 0); [lia|].
  now apply roundMagnitude_large.
Qed.

Lemma toDouble_nonpos n : n <= 0 -> toDouble n <= 0.
Proof.
  intros H. destruct (Z.le_gt_cases (- 2 ^ 53) n).
  - rewrite toDouble_small; lia.
  - unfold toDouble. destruct (Z.ltb_spec n 0); [|lia].
    pose proof (roundMagnitude_large (- n)). lia.
Qed.

(** Rounding keeps an integer on its side of every integer up to 2^53. *)
Lemma toDouble_lower n k :
  - 2 ^ 53 <= k <= 2 ^ 53 -> k <= n -> k <= toDouble n.
Proof.
  intros Hk H. destruct (Z.le_gt_cases n (2 ^ 53)).
  - destruct (Z.le_gt_cases (- 2 ^ 53) n).
    + rewrite toDouble_small; lia.
    + lia.
  - pose proof (toDouble_large n). lia.
Qed.

(** Beyond 2^53: a tie goes to the even significand, [Infinity] is
    reached at 2^1024 - 2^970 and stays. *)
Example toDouble_examples :
  toDouble (2 ^ 53 + 1) = 2 ^ 53
  /\ toDouble (2 ^ 53 + 2) = 2 ^ 53 + 2
  /\ toDouble (2 ^ 53 + 3) = 2 ^ 53 + 4
  /\ toDouble (10 ^ 20 - 1) = 10 ^ 20
  /\ toDouble (- (2 ^ 53 + 1)) = - 2 ^ 53
  /\ toDouble (2 ^ 1024 - 2 ^ 970 - 1) = (2 ^ 53 - 1) * 2 ^ 971
  /\ toDouble (2 ^ 1024 - 2 ^ 970) = INFINITY
  /\ toDouble (INFINITY + 1) = INFINITY
  /\ toDouble (INFINITY - 1) = INFINITY.
Proof. repeat split; vm_compute; reflexivity. Qed.

(** What the two stepper operations store. *)
Lemma increment_value q :
  - 2 ^ 53 <= q -> Z.min 10 (toDouble (q + 1)) = Z.min 10 (q + 1).
Proof.
  intros H. destruct (Z.le_gt_cases (q + 1) (2 ^ 53)).
  - rewrite toDouble_small; lia.
  - pose proof (toDouble_large (q + 1)). lia.
Qed.

Lemma decrement_value q :
  - 2 ^ 53 < q <= 2 ^ 53 -> Z.max 1 (toDouble (q - 1)) = Z.max 1 (q - 1).
Proof. intros H. rewrite toDouble_small; lia. Qed.

End NumberFacts.

(* ================================================================== *)
(** * What [parseInt] reads                                             *)
(* ================================================================== *)

Module ParseIntFacts.
Import Js Controls NumberFacts.

Lemma digit_cases c :
  isDigitCode c ->
  (c = 48 \/ c = 49 \/ c = 50 \/ c = 51 \/ c = 52
   \/ c = 53 \/ c = 54 \/ c = 55 \/ c = 56 \/ c = 57)%N.
Proof. unfold isDigitCode. lia. Qed.

Ltac each_digit H :=
  apply digit_cases in H;
  repeat (destruct H as [H|H]; [subst|]); subst.

Lemma digitOf_code k :
  0 <= k <= 9 -> digitOf 10 (Z.to_N (48 + k)) = Some k.
Proof.
  intros H.
  assert (Hk : k = 0 \/ k = 1 \/ k = 2 \/ k = 3 \/ k = 4
               \/ k = 5 \/ k = 6 \/ k = 7 \/ k = 8 \/ k = 9) by lia.
  repeat (destruct Hk as [Hk|Hk]; [subst; reflexivity|]). subst. reflexivity.
Qed.

Lemma code_isDigit k : 0 <= k <= 9 -> isDigitCode (Z.to_N (48 + k)).
Proof. unfold isDigitCode. lia. Qed.

Lemma digitsOf_digits fuel : forall n rest,
  0 <= n -> Forall isDigitCode rest -> Forall isDigitCode (digitsOf fuel n rest).
Proof.
  induction fuel as [|fuel IH]; intros n rest Hn Hrest; simpl; [assumption|].
  assert (Hd : isDigitCode (Z.to_N (48 + n mod 10)))
    by (apply code_isDigit; pose proof (Z.mod_pos_bound n 10); lia).
  destruct (n <? 10); [now constructor|].
  apply IH; [apply Z.div_pos; lia|now constructor].
Qed.

Lemma digitsOf_nonempty fuel n rest : digitsOf (S fuel) n rest <> [].
Proof.
  revert n rest. induction fuel as [|fuel IH]; intros n rest.
  - simpl. destruct (n <? 10); discriminate.
  - change (digitsOf (S (S fuel)) n rest)
      with (if n <? 10 then Z.to_N (48 + n mod 10) :: rest
            else digitsOf (S fuel) (n / 10) (Z.to_N (48 + n mod 10) :: rest)).
    destruct (n <? 10); [discriminate|apply IH].
Qed.

Lemma digitsOf_S fuel n rest :
  digitsOf (S fuel) n rest
    = if n <? 10 then Z.to_N (48 + n mod 10) :: rest
      else digitsOf fuel (n / 10) (Z.to_N (48 + n mod 10) :: rest).
Proof. reflexivity. Qed.

Lemma readDigits_digit k rest acc :
  0 <= k <= 9 ->
  readDigits 10 (Z.to_N (48 + k) :: rest) acc
    = readDigits 10 rest
        (Some (match acc with Some a => a * 10 + k | None => k end)).
Proof.
  intros Hk. cbn [readDigits]. now rewrite (digitOf_code k Hk).
Qed.

(** Reading the digits of [n] yields [n], with enough fuel to print
    all of them. *)
Lemma readDigits_digitsOf fuel : forall n rest,
  0 <= n < 2 ^ Z.of_nat (S fuel) ->
  readDigits 10 (digitsOf (S fuel) n rest) None = readDigits 10 rest (Some n).
Proof.
  induction fuel as [|fuel IH]; intros n rest Hn; rewrite digitsOf_S;
    pose proof (Z.mod_pos_bound n 10 ltac:(lia)) as Hm.
  - change (2 ^ Z.of_nat 1) with 2 in Hn.
    destruct (Z.ltb_spec n 10); [|lia].
    rewrite readDigits_digit by lia. now rewrite Z.mod_small by lia.
  - destruct (Z.ltb_spec n 10).
    + rewrite readDigits_digit by lia. now rewrite Z.mod_small by lia.
    + rewrite IH.
      * rewrite readDigits_digit by lia. do 2 f_equal.
        pose proof (Z.div_mod n 10 ltac:(lia)). lia.
      * split; [apply Z.div_pos; lia|].
        apply Z.div_lt_upper_bound; [lia|].
        replace (Z.of_nat (S (S fuel))) with (Z.succ (Z.of_nat (S fuel))) in Hn
          by lia.
        rewrite Z.pow_succ_r in Hn by lia. lia.
Qed.

Lemma fuel_enough n : 0 <= n -> 0 <= n < 2 ^ Z.of_nat (S (Z.to_nat (Z.log2 n))).
Proof.
  intros Hn. split; [assumption|].
  destruct (Z.eq_dec n 0) as [->|Hz]; [reflexivity|].
  replace (Z.of_nat (S (Z.to_nat (Z.log2 n)))) with (Z.succ (Z.log2 n))
    by (pose proof (Z.log2_nonneg n); lia).
  apply Z.log2_spec. lia.
Qed.

(** A decimal digit is no white space and no sign, and a string of
    decimal digits has no [0x] prefix. *)
Lemma trimStart_digit a t : isDigitCode a -> trimStart (a :: t) = a :: t.
Proof. intros Ha. each_digit Ha; reflexivity. Qed.

Lemma readSign_digit a t : isDigitCode a -> readSign (a :: t) = (1, a :: t).
Proof. intros Ha. each_digit Ha; reflexivity. Qed.

Lemma readRadix_digits s : Forall isDigitCode s -> readRadix s = (10, s).
Proof.
  intros Hs. destruct s as [|a [|b t]]; try reflexivity.
  inversion Hs as [|? ? _ Ht]; subst. inversion Ht as [|? ? Hb _]; subst.
  unfold readRadix, isDigitCode in *.
  destruct (N.eqb_spec b 120); [lia|]. destruct (N.eqb_spec b 88); [lia|].
  now rewrite andb_false_r.
Qed.

(** [parseInt] on a non-empty string of decimal digits reads all of it
    in radix 10: no white space, no sign and no [0x] prefix is found. *)
Lemma parseInt_digits s :
  s <> [] -> Forall isDigitCode s ->
  parseInt s
    = match readDigits 10 s None with
      | Some v => Some (toDouble v)
      | None => None
      end.
Proof.
  intros Hne Hs. destruct s as [|a t]; [contradiction|].
  assert (Ha : isDigitCode a) by now inversion Hs.
  unfold parseInt.
  rewrite (trimStart_digit a t Ha), (readSign_digit a t Ha). cbv beta iota.
  rewrite (readRadix_digits _ Hs).
  destruct (readDigits 10 (a :: t) None) as [v|]; [|reflexivity].
  now rewrite Z.mul_1_l.
Qed.

Lemma parseInt_minus_digits s :
  s <> [] -> Forall isDigitCode s ->
  parseInt (45%N :: s)
    = match readDigits 10 s None with
      | Some v => Some (toDouble (- v))
      | None => None
      end.
Proof.
  intros Hne Hs. unfold parseInt.
  change (trimStart (45%N :: s)) with (45%N :: s).
  change (readSign (45%N :: s)) with (-1, s). cbv beta iota.
  rewrite (readRadix_digits _ Hs).
  destruct (readDigits 10 s None) as [v|]; [|reflexivity].
  now replace (-1 * v) with (- v) by lia.
Qed.

(** The decimal text of an integer is read as the double nearest to
    it. *)
Lemma parseInt_numberToString n :
  parseInt (numberToString n) = Some (toDouble n).
Proof.
  unfold numberToString.
  destruct (Z.ltb_spec n 0) as [Hneg|Hpos].
  - rewrite parseInt_minus_digits;
      [|apply digitsOf_nonempty|apply digitsOf_digits; [lia|constructor]].
    rewrite readDigits_digitsOf by (apply fuel_enough; lia).
    cbn [readDigits]. do 2 f_equal. lia.
  - rewrite parseInt_digits;
      [|apply digitsOf_nonempty|apply digitsOf_digits; [lia|constructor]].
    now rewrite readDigits_digitsOf by (apply fuel_enough; lia).
Qed.

Lemma parseInt_numberToString_exact n :
  Z.abs n <= 2 ^ 53 -> parseInt (numberToString n) = Some n.
Proof.
  intros H. rewrite parseInt_numberToString, toDouble_small; [reflexivity|lia].
Qed.

(** An input with no decimal digit is read as [NaN]. *)
Lemma digitOf_no_digit c : ~ isDigitCode c -> digitOf 10 c = None.
Proof.
  unfold isDigitCode, digitOf, digitValue, inRange. intros H.
  destruct (N.leb_spec 48 c), (N.leb_spec c 57); cbn [andb]; try lia;
    destruct (N.leb_spec 97 c), (N.leb_spec c 122); cbn [andb];
    try (destruct (Z.ltb_spec (Z.of_N c - 97 + 10) 10); [lia|reflexivity]);
    destruct (N.leb_spec 65 c), (N.leb_spec c 90); cbn [andb];
    try (destruct (Z.ltb_spec (Z.of_N c - 65 + 10) 10); [lia|reflexivity]);
    reflexivity.
Qed.

Lemma dropWhile_Forall (P : codeunit -> Prop) p s :
  Forall P s -> Forall P (dropWhile p s).
Proof.
  induction 1 as [|c t Hc Ht IH]; simpl; [constructor|].
  destruct (p c); [assumption|now constructor].
Qed.

Lemma parseInt_no_digit value :
  Forall (fun c => ~ isDigitCode c) value -> parseInt value = None.
Proof.
  intros H. unfold parseInt.
  apply (dropWhile_Forall _ isWhiteSpace) in H.
  fold (trimStart value) in H.
  assert (Hsign : Forall (fun c => ~ isDigitCode c)
                    (snd (readSign (trimStart value)))).
  { unfold readSign. destruct (trimStart value) as [|c t]; [constructor|].
    destruct (c =? 45)%N; [now inversion H|].
    destruct (c =? 43)%N; [now inversion H|assumption]. }
  destruct (readSign (trimStart value)) as [sign s]. cbn [snd] in Hsign.
  assert (Hradix : readRadix s = (10, s)).
  { unfold readRadix. destruct s as [|a [|b t]]; try reflexivity.
    destruct (N.eqb_spec a 48) as [->|]; [|reflexivity].
    inversion Hsign as [|? ? Ha _]. exfalso. apply Ha.
    unfold isDigitCode. lia. }
  rewrite Hradix.
  destruct s as [|c t]; [reflexivity|].
  cbn [readDigits]. rewrite digitOf_no_digit; [reflexivity|now inversion Hsign].
Qed.

End ParseIntFacts.

(* ================================================================== *)
(** * The quantity of the product action state                          *)
(* ================================================================== *)

Module QuantityProofs.
Import Js ProductActions Controls NumberFacts ParseIntFacts.

Lemma handleInputChange_cases value st :
  match parseInt value with
  | Some v =>
      if 1 <=? v
      then handleInputChange value st = setQuantity v st
      else handleInputChange value st = st
  | None => handleInputChange value st = st
  end.
Proof.
  unfold handleInputChange.
  destruct (parseInt value) as [v|]; [|reflexivity].
  destruct (Z.geb_spec v 1), (Z.leb_spec 1 v); try lia; reflexivity.
Qed.

Lemma fireNextTimer_quantity random st :
  quantity (fireNextTimer random st) = quantity st.
Proof.
  unfold fireNextTimer.
  destruct (nextTimer (timers st)) as [[t rest]|]; [|reflexivity].
  destruct (run t); simpl; [|reflexivity].
  unfold resumeAddToCart. destruct (randomAboveThreshold random); reflexivity.
Qed.

Lemma incrementQuantity_quantity st :
  1 <= quantity st ->
  quantity (incrementQuantity st) = Z.min 10 (quantity st + 1).
Proof.
  intros H. unfold incrementQuantity. cbn [setQuantity quantity].
  apply increment_value. lia.
Qed.

Lemma decrementQuantity_quantity st :
  1 <= quantity st <= 2 ^ 53 ->
  quantity (decrementQuantity st) = Z.max 1 (quantity st - 1).
Proof.
  intros H. unfold decrementQuantity. cbn [setQuantity quantity].
  apply decrement_value. lia.
Qed.

Lemma decrementQuantity_lower st : 1 <= quantity (decrementQuantity st).
Proof. unfold decrementQuantity. cbn [setQuantity quantity]. lia. Qed.

Lemma incrementQuantity_upper st : quantity (incrementQuantity st) <= 10.
Proof. unfold incrementQuantity. cbn [setQuantity quantity]. lia. Qed.

Lemma decrementQuantity_upper st :
  quantity st <= 10 -> quantity (decrementQuantity st) <= 10.
Proof.
  intros H. destruct (Z.le_gt_cases 1 (quantity st)).
  - rewrite decrementQuantity_quantity; lia.
  - unfold decrementQuantity. cbn [setQuantity quantity].
    pose proof (toDouble_nonpos (quantity st - 1)). lia.
Qed.

Lemma step_quantity_lower st e :
  1 <= quantity st -> 1 <= quantity (step st e).
Proof.
  intros H. destruct e; cbn [step]; try assumption.
  - rewrite incrementQuantity_quantity; lia.
  - apply decrementQuantity_lower.
  - pose proof (handleInputChange_cases value st) as Hc.
    destruct (parseInt value) as [v|]; [|now rewrite Hc].
    destruct (Z.leb_spec 1 v); rewrite Hc; simpl; lia.
  - now rewrite fireNextTimer_quantity.
Qed.

Lemma step_quantity_upper st e :
  inputWithinStepperRange e -> quantity st <= 10 -> quantity (step st e) <= 10.
Proof.
  intros He H. destruct e; cbn [step inputWithinStepperRange] in *;
    try assumption.
  - apply incrementQuantity_upper.
  - now apply decrementQuantity_upper.
  - pose proof (handleInputChange_cases value st) as Hc.
    destruct (parseInt value) as [v|]; [|now rewrite Hc].
    destruct (Z.leb_spec 1 v); rewrite Hc; simpl; lia.
  - now rewrite fireNextTimer_quantity.
Qed.

Lemma runEvents_quantity_lower es st :
  1 <= quantity st -> 1 <= quantity (runEvents st es).
Proof.
  revert st. induction es as [|e es IH]; intros st H; simpl; [assumption|].
  apply IH. now apply step_quantity_lower.
Qed.

Lemma runEvents_quantity_upper es st :
  Forall inputWithinStepperRange es ->
  quantity st <= 10 -> quantity (runEvents st es) <= 10.
Proof.
  intros Hes. revert st.
  induction Hes as [|e es He _ IH]; intros st H; simpl; [assumption|].
  apply IH. now apply step_quantity_upper.
Qed.

(** C1 as stated does not hold: the quantity control accepts the input
    [11] and the provider stores it. *)
Lemma quantity_above_10_by_direct_input :
  parseInt (lit "11") = Some 11
  /\ quantity (runEvents initialState [InputChange (lit "11")]) = 11
  /\ ~ (1 <= quantity (runEvents initialState [InputChange (lit "11")]) <= 10).
Proof.
  split; [reflexivity|]. split; [reflexivity|].
  vm_compute. intros [_ H]. now apply H.
Qed.

(** C1, as the code has it.  The operations on the quantity are
    [incrementQuantity], [decrementQuantity] and [setQuantity] with an
    input that the quantity control accepts ([InputChange]); they are
    interleaved at will with the events of the cart submission.
    Starting from 1, after every sequence of these events the stored
    quantity is at least 1; it is at most 10 as well as long as no
    directly entered value above 10 is among them, in particular when
    only the two stepper buttons are used.  (A sequence contains its
    prefixes, so this holds at every point of a run.) *)
Theorem quantity_bounds es :
  1 <= quantity (runEvents initialState es)
  /\ (Forall inputWithinStepperRange es ->
      quantity (runEvents initialState es) <= 10).
Proof.
  split.
  - apply runEvents_quantity_lower. simpl. lia.
  - intros H. apply runEvents_quantity_upper; [assumption|simpl; lia].
Qed.

Lemma quantity_bounds_witness :
  let es := [ClickIncrement; InputChange (lit "7"); ClickDecrement;
             InputChange (lit "abc"); CallHandleAddToCart; ClickIncrement] in
  Forall inputWithinStepperRange es
  /\ 1 <= quantity (runEvents initialState es) <= 10.
Proof.
  intros es.
  assert (H : Forall inputWithinStepperRange es)
    by (repeat constructor; vm_compute; discriminate).
  split; [exact H|].
  split; [exact (proj1 (quantity_bounds es))|exact (proj2 (quantity_bounds es) H)].
Defined.

Lemma iter_increment n :
  quantity (Nat.iter n incrementQuantity initialState)
    = Z.min 10 (1 + Z.of_nat n).
Proof.
  induction n as [|n IH]; [reflexivity|].
  rewrite Nat.iter_succ, incrementQuantity_quantity; rewrite IH; lia.
Qed.

(** After the first increment the quantity is [min(10, q + n)]. *)
Lemma iter_increment_from st n :
  1 <= quantity st ->
  quantity (Nat.iter (S n) incrementQuantity st)
    = Z.min 10 (quantity st + Z.of_nat (S n)).
Proof.
  intros H. induction n as [|n IH].
  - cbn [Nat.iter nat_rect]. rewrite incrementQuantity_quantity by assumption.
    lia.
  - rewrite Nat.iter_succ, incrementQuantity_quantity; rewrite IH; lia.
Qed.

Lemma iter_decrement_from st n :
  1 <= quantity st <= 2 ^ 53 ->
  quantity (Nat.iter n decrementQuantity st)
    = Z.max 1 (quantity st - Z.of_nat n).
Proof.
  intros H. induction n as [|n IH].
  - cbn [Nat.iter nat_rect]. lia.
  - rewrite Nat.iter_succ, decrementQuantity_quantity; rewrite IH; lia.
Qed.

(** C5 as stated does not hold for every quantity: the quantity is a
    double, and beyond 2^53 the difference [q - 1] is rounded.  After
    the direct input [100000000000000000000] the decrement button is
    enabled and [decrementQuantity] stores what was stored already. *)
Lemma decrement_keeps_large_quantity :
  let st := runEvents initialState [InputChange (lit "100000000000000000000")] in
  quantity st = 10 ^ 20
  /\ decrementDisabled st = false
  /\ quantity (decrementQuantity st) = 10 ^ 20
  /\ quantity (decrementQuantity st) <> Z.max 1 (quantity st - 1).
Proof.
  cbv zeta. split; [vm_compute; reflexivity|]. split; [reflexivity|].
  split; vm_compute; [reflexivity|discriminate].
Qed.

(** C5, as the code has it.  For a quantity [q] of at least 1,
    [incrementQuantity] stores [min(10, q + 1)]; [decrementQuantity]
    stores [max(1, q - 1)] when [q] is at most 2^53, and beyond that
    the double nearest to [q - 1], which is 2^53 or more.  After [n + 1]
    increments the quantity is [min(10, q + n + 1)], never above 10;
    after [n] decrements it is never below 1, and it is [max(1, q - n)]
    when [q] is at most 2^53.  From the initial 1, [n] increments give
    [min(10, 1 + n)] and [n] decrements give 1. *)
Theorem stepper_clamps st :
  1 <= quantity st ->
  quantity (incrementQuantity st) = Z.min 10 (quantity st + 1)
  /\ (quantity st <= 2 ^ 53 ->
      quantity (decrementQuantity st) = Z.max 1 (quantity st - 1))
  /\ (2 ^ 53 < quantity st ->
      quantity (decrementQuantity st) = toDouble (quantity st - 1)
      /\ 2 ^ 53 <= quantity (decrementQuantity st))
  /\ (forall n,
        quantity (Nat.iter (S n) incrementQuantity st)
          = Z.min 10 (quantity st + Z.of_nat (S n))
        /\ quantity (Nat.iter (S n) incrementQuantity st) <= 10)
  /\ (forall n,
        1 <= quantity (Nat.iter n decrementQuantity st)
        /\ (quantity st <= 2 ^ 53 ->
            quantity (Nat.iter n decrementQuantity st)
              = Z.max 1 (quantity st - Z.of_nat n)))
  /\ (forall n,
        quantity (Nat.iter n incrementQuantity initialState)
          = Z.min 10 (1 + Z.of_nat n)
        /\ quantity (Nat.iter n decrementQuantity initialState) = 1).
Proof.
  intros H.
  split; [now apply incrementQuantity_quantity|].
  split; [intros Hle; apply decrementQuantity_quantity; lia|].
  split; [|split; [|split]].
  - intros Hlarge. unfold decrementQuantity. cbn [setQuantity quantity].
    pose proof (toDouble_large (quantity st - 1)). lia.
  - intros n. rewrite iter_increment_from by assumption. split; [reflexivity|lia].
  - intros n. split.
    + destruct n as [|n]; [assumption|].
      rewrite Nat.iter_succ. apply decrementQuantity_lower.
    + intros Hle. apply iter_decrement_from. lia.
  - intros n. split; [apply iter_increment|].
    rewrite iter_decrement_from by (cbn [initialState quantity]; lia).
    cbn [initialState quantity]. lia.
Qed.

Lemma stepper_clamps_witness :
  let st := runEvents initialState [InputChange (lit "12")] in
  let large := runEvents initialState [InputChange (lit "9007199254740994")] in
  (1 <= quantity st
   /\ quantity st <= 2 ^ 53
   /\ quantity (incrementQuantity st) = 10
   /\ quantity (decrementQuantity st) = 11
   /\ quantity (Nat.iter 3 incrementQuantity st) = 10
   /\ quantity (Nat.iter 20 decrementQuantity st) = 1)
  /\ (1 <= quantity large
      /\ 2 ^ 53 < quantity large
      /\ quantity (decrementQuantity large) = toDouble (quantity large - 1)
      /\ 2 ^ 53 <= quantity (decrementQuantity large)).
Proof.
  intros st large.
  assert (H1 : 1 <= quantity st) by (vm_compute; discriminate).
  assert (H2 : quantity st <= 2 ^ 53) by (vm_compute; discriminate).
  assert (H3 : 1 <= quantity large) by (vm_compute; discriminate).
  assert (H4 : 2 ^ 53 < quantity large) by (vm_compute; reflexivity).
  destruct (stepper_clamps st H1) as (Hinc & Hdec & _ & Hincs & Hdecs & _).
  destruct (stepper_clamps large H3) as (_ & _ & Hlarge & _).
  split.
  - split; [exact H1|]. split; [exact H2|].
    split; [exact Hinc|]. split; [exact (Hdec H2)|].
    split; [exact (proj1 (Hincs 2%nat))|exact (proj2 (Hdecs 20%nat) H2)].
  - split; [exact H3|]. split; [exact H4|]. exact (Hlarge H4).
Defined.

(** C6 as stated does not hold for every input: the value read is a
    double.  The input [9007199254740993] (2^53 + 1) is the decimal text
    of an integer of at least 1; what is stored is 9007199254740992. *)
Lemma direct_input_beyond_2_53_is_rounded :
  let value := lit "9007199254740993" in
  value = numberToString (2 ^ 53 + 1)
  /\ parseInt value = Some (2 ^ 53)
  /\ quantity (handleInputChange value initialState) = 9007199254740992
  /\ quantity (handleInputChange value initialState) <> 9007199254740993.
Proof.
  cbv zeta. split; [vm_compute; reflexivity|]. split; [vm_compute; reflexivity|].
  split; vm_compute; [reflexivity|discriminate].
Qed.

(** C6, as the code has it.  The input is read by [parseInt], which
    skips leading white space, reads a sign and the longest run of
    digits, and ignores what follows.  An input read as a number of at
    least 1 has that number stored, above 10 too; an input read as
    [NaN] or as a number below 1 leaves the state as it was.  For the
    decimal text of an integer [n]: from 1 to 2^53 it is [n] that is
    stored; beyond 2^53 it is the double nearest to [n]; for [n] zero or
    negative the input is rejected.  An input with no decimal digit is
    rejected. *)
Theorem direct_input_verbatim_or_rejected value st :
  match parseInt value with
  | Some v =>
      if 1 <=? v
      then quantity (handleInputChange value st) = v
           /\ cartStatus (handleInputChange value st) = cartStatus st
      else handleInputChange value st = st
  | None => handleInputChange value st = st
  end
  /\ (forall n, 1 <= n <= 2 ^ 53 ->
        handleInputChange (numberToString n) st = setQuantity n st)
  /\ (forall n, 2 ^ 53 <= n ->
        handleInputChange (numberToString n) st = setQuantity (toDouble n) st
        /\ 2 ^ 53 <= toDouble n)
  /\ (forall n, n <= 0 -> handleInputChange (numberToString n) st = st)
  /\ (Forall (fun c => ~ isDigitCode c) value ->
      handleInputChange value st = st)
  /\ quantity (handleInputChange (lit "11") st) = 11
  /\ quantity (handleInputChange (lit "250") st) = 250
  /\ quantity (handleInputChange (lit "3.7") st) = 3
  /\ quantity (handleInputChange (lit " +12abc") st) = 12
  /\ handleInputChange (lit "invalid") st = st
  /\ handleInputChange [] st = st
  /\ handleInputChange (lit "0") st = st
  /\ handleInputChange (lit "-5") st = st.
Proof.
  split; [|split; [|split; [|split; [|split; [|repeat split]]]]].
  - pose proof (handleInputChange_cases value st) as Hc.
    destruct (parseInt value) as [v|]; [|assumption].
    destruct (1 <=? v); [|assumption].
    rewrite Hc. split; reflexivity.
  - intros n Hn. pose proof (handleInputChange_cases (numberToString n) st) as Hc.
    rewrite parseInt_numberToString_exact in Hc by lia.
    destruct (Z.leb_spec 1 n); [assumption|lia].
  - intros n Hn. pose proof (toDouble_large n Hn) as Hd.
    split; [|assumption].
    pose proof (handleInputChange_cases (numberToString n) st) as Hc.
    rewrite parseInt_numberToString in Hc.
    destruct (Z.leb_spec 1 (toDouble n)); [assumption|lia].
  - intros n Hn. pose proof (toDouble_nonpos n Hn) as Hd.
    pose proof (handleInputChange_cases (numberToString n) st) as Hc.
    rewrite parseInt_numberToString in Hc.
    destruct (Z.leb_spec 1 (toDouble n)); [lia|assumption].
  - intros Hv. unfold handleInputChange. now rewrite parseInt_no_digit.
Qed.

Lemma direct_input_verbatim_or_rejected_witness :
  let st := initialState in
  (1 <= 250 <= 2 ^ 53 /\ handleInputChange (numberToString 250) st = setQuantity 250 st)
  /\ (2 ^ 53 <= 2 ^ 53 + 1
      /\ handleInputChange (numberToString (2 ^ 53 + 1)) st
         = setQuantity (toDouble (2 ^ 53 + 1)) st)
  /\ (-5 <= 0 /\ handleInputChange (numberToString (-5)) st = st)
  /\ (Forall (fun c => ~ isDigitCode c) (lit "abc")
      /\ handleInputChange (lit "abc") st = st).
Proof.
  intros st.
  destruct (direct_input_verbatim_or_rejected (lit "abc") st)
    as (_ & Hexact & Hlarge & Hneg & Hnone & _).
  assert (H1 : 1 <= 250 <= 2 ^ 53) by (split; vm_compute; discriminate).
  assert (H2 : 2 ^ 53 <= 2 ^ 53 + 1) by (vm_compute; discriminate).
  assert (H3 : -5 <= 0) by (vm_compute; discriminate).
  assert (H4 : Forall (fun c => ~ isDigitCode c) (lit "abc")).
  { repeat constructor; unfold isDigitCode; intros [Hlo Hhi];
      vm_compute in Hhi; now apply Hhi. }
  split; [split; [exact H1|exact (Hexact 250 H1)]|].
  split; [split; [exact H2|exact (proj1 (Hlarge (2 ^ 53 + 1) H2))]|].
  split; [split; [exact H3|exact (Hneg (-5) H3)]|].
  split; [exact H4|exact (Hnone H4)].
Defined.

End QuantityProofs.

(* ================================================================== *)
(** * The cart-submission status of the product action state            *)
(* ================================================================== *)

Module CartStatusProofs.
Import Js ProductActions.

Lemma handleInputChange_status value st :
  cartStatus (handleInputChange value st) = cartStatus st
  /\ timers (handleInputChange value st) = timers st.
Proof.
  unfold handleInputChange.
  destruct (parseInt value) as [v|]; [|now split].
  destruct (v >=? 1); now split.
Qed.

Lemma wait_status ms st :
  cartStatus (wait ms st) = cartStatus st /\ timers (wait ms st) = timers st.
Proof. now split. Qed.

(** Each event keeps status and timers in step, in a disciplined run. *)
Lemma step_consistent st e :
  consistent st -> disciplined st e -> consistent (step st e).
Proof.
  unfold consistent. intros Hc Hd.
  destruct e; simpl in *; try assumption.
  - destruct (handleInputChange_status value st) as [-> ->]. assumption.
  - rewrite Hd in Hc. rewrite Hc. now exists (now st + 1000).
  - contradiction.
  - unfold fireNextTimer.
    destruct (cartStatus st) eqn:Hs.
    + rewrite Hc. simpl. now rewrite Hs.
    + destruct Hc as [d ->]. simpl. unfold resumeAddToCart.
      destruct (randomAboveThreshold random); simpl; eexists; reflexivity.
    + destruct Hc as [d ->]. reflexivity.
    + destruct Hc as [d ->]. reflexivity.
Qed.

Lemma reachable_consistent st : reachable st -> consistent st.
Proof.
  induction 1 as [|st e _ IH Hd]; [reflexivity|].
  now apply step_consistent.
Qed.

Lemma step_edge st e :
  consistent st -> disciplined st e ->
  cartStatus (step st e) = cartStatus st
  \/ statusEdge (cartStatus st) (cartStatus (step st e)) = true.
Proof.
  unfold consistent. intros Hc Hd.
  destruct e; simpl in *; try (now left).
  - left. apply handleInputChange_status.
  - right. now rewrite Hd.
  - unfold fireNextTimer.
    destruct (cartStatus st) eqn:Hs.
    + rewrite Hc. simpl. now left.
    + destruct Hc as [d ->]. simpl. unfold resumeAddToCart. right.
      destruct (randomAboveThreshold random); reflexivity.
    + destruct Hc as [d ->]. now right.
    + destruct Hc as [d ->]. now right.
Qed.

(** C2 as stated does not hold.  The provider hands [setCartStatus] to
    its consumers, which takes the status from [idle] to [success] at
    once.  Without it: the button is enabled in status [error], and a
    submission started there goes [error -> loading]; started while the
    revert timer of the previous one is pending, that timer then takes
    the status [loading -> idle], and the resumed call [idle -> error]. *)
Lemma status_leaves_the_edges :
  (let st := initialState in
   cartStatus st = idle
   /\ cartStatus (step st (CallSetCartStatus success)) = success
   /\ statusEdge idle success = false)
  /\
  (let st := runEvents initialState [CallHandleAddToCart; TimerFires 0.1; Wait 2500] in
   cartStatus st = error /\ addToCartDisabled st = false
   /\ cartStatus (step st CallHandleAddToCart) = loading
   /\ statusEdge error loading = false
   /\ cartStatus (runEvents st [CallHandleAddToCart; TimerFires 0.1]) = idle
   /\ statusEdge loading idle = false
   /\ cartStatus (runEvents st [CallHandleAddToCart; TimerFires 0.1; TimerFires 0.1])
        = error
   /\ statusEdge idle error = false).
Proof. vm_compute. repeat split. Qed.

(** C2, as the code has it.  In a run from the initial state in which
    [setCartStatus] is not called from outside and [handleAddToCart] is
    called in status [idle] only, an event leaves the status as it is
    or moves it along one of [idle -> loading], [loading -> success],
    [loading -> error], [success -> idle], [error -> idle]. *)
Theorem status_follows_edges st e :
  reachable st -> disciplined st e ->
  cartStatus (step st e) = cartStatus st
  \/ statusEdge (cartStatus st) (cartStatus (step st e)) = true.
Proof.
  intros Hr Hd. apply step_edge; [now apply reachable_consistent|assumption].
Qed.

Lemma status_follows_edges_witness :
  let st := step (step initialState CallHandleAddToCart) (TimerFires 0.5) in
  reachable st /\ disciplined st (TimerFires 0.5)
  /\ cartStatus st = success
  /\ cartStatus (step st (TimerFires 0.5)) = idle
  /\ (cartStatus (step st (TimerFires 0.5)) = cartStatus st
      \/ statusEdge (cartStatus st) (cartStatus (step st (TimerFires 0.5))) = true).
Proof.
  intros st.
  assert (Hr : reachable st).
  { apply reachable_step; [apply reachable_step|]; [constructor|reflexivity|exact I]. }
  assert (Hd : disciplined st (TimerFires 0.5)) by exact I.
  split; [exact Hr|]. split; [exact Hd|].
  split; [reflexivity|]. split; [reflexivity|].
  exact (status_follows_edges st (TimerFires 0.5) Hr Hd).
Defined.

(** *** The draw *)


(** The literal [0.2] denotes a double above one fifth: a draw of
    exactly that double is not above the threshold, and it fails. *)
Lemma double_0_2_above_fifth :
  (0.2 < double_0_2)%Q
  /\ randomAboveThreshold double_0_2 = false
  /\ (double_0_2 - 0.2 == 1 # 90071992547409920)%Q.
Proof. repeat split. Qed.





(** *** One submission *)




End CartStatusProofs.

(* ================================================================== *)
(** * More on the string built-ins: trimming and prefixes               *)
(* ================================================================== *)

Module TrimFacts.
Import Js JsFacts.

Lemma dropWhile_split p s :
  exists ws, s = ws ++ dropWhile p s /\ Forall (fun c => p c = true) ws.
Proof.
  induction s as [|c t (ws & Ht & Hws)]; simpl.
  - exists []. split; [reflexivity|constructor].
  - destruct (p c) eqn:Hc.
    + exists (c :: ws). split; [simpl; now rewrite <- Ht|now constructor].
    + exists []. split; [reflexivity|constructor].
Qed.

Lemma dropWhileEnd_split p s :
  exists ws, s = dropWhileEnd p s ++ ws /\ Forall (fun c => p c = true) ws.
Proof.
  induction s as [|c t (ws & Ht & Hws)]; simpl.
  - exists []. split; [reflexivity|constructor].
  - destruct (p c) eqn:Hc; simpl.
    + destruct (dropWhileEnd p t) as [|d t'] eqn:Hd; simpl.
      * exists (c :: ws). split; [simpl in Ht; now rewrite <- Ht|now constructor].
      * exists ws. split; [now rewrite Ht at 1|assumption].
    + exists ws. split; [now rewrite Ht at 1|assumption].
Qed.

(** What is left of a string after [dropWhileEnd] does not end with a
    code unit of the class. *)
Lemma dropWhileEnd_cons p c t :
  dropWhileEnd p (c :: t)
    = if p c && isEmpty (dropWhileEnd p t) then [] else c :: dropWhileEnd p t.
Proof. reflexivity. Qed.

Lemma dropWhileEnd_idem p s : dropWhileEnd p (dropWhileEnd p s) = dropWhileEnd p s.
Proof.
  induction s as [|c t IH]; [reflexivity|].
  rewrite dropWhileEnd_cons.
  destruct (p c && isEmpty (dropWhileEnd p t)) eqn:Hc; [reflexivity|].
  rewrite dropWhileEnd_cons, IH, Hc. reflexivity.
Qed.

Lemma dropWhile_idem p s : dropWhile p (dropWhile p s) = dropWhile p s.
Proof.
  induction s as [|c t IH]; simpl; [reflexivity|].
  destruct (p c) eqn:Hc; [assumption|]. simpl. now rewrite Hc.
Qed.

(** Dropping at the end keeps a first code unit outside the class. *)
Lemma dropWhile_dropWhileEnd p s :
  dropWhile p s = s -> dropWhile p (dropWhileEnd p s) = dropWhileEnd p s.
Proof.
  destruct s as [|c t]; simpl; [reflexivity|].
  destruct (p c) eqn:Hc; simpl.
  - intros H. exfalso.
    pose proof (dropWhile_length p t) as Hl. rewrite H in Hl. simpl in Hl. lia.
  - intros _. now rewrite Hc.
Qed.

Lemma trim_idem s : trim (trim s) = trim s.
Proof.
  unfold trim, trimEnd, trimStart.
  rewrite dropWhile_dropWhileEnd by apply dropWhile_idem.
  apply dropWhileEnd_idem.
Qed.

(** [trim] removes white space around a string and nothing else. *)
Lemma trim_split s :
  exists before after,
    s = before ++ trim s ++ after
    /\ Forall (fun c => isWhiteSpace c = true) before
    /\ Forall (fun c => isWhiteSpace c = true) after.
Proof.
  unfold trim, trimEnd, trimStart.
  destruct (dropWhile_split isWhiteSpace s) as (before & Hs & Hb).
  destruct (dropWhileEnd_split isWhiteSpace (dropWhile isWhiteSpace s))
    as (after & Hd & Ha).
  exists before, after. repeat split; try assumption.
  rewrite Hs at 1. now rewrite Hd at 1.
Qed.

Lemma firstn_app_exact (a b : jsstring) n :
  n = List.length a -> firstn n (a ++ b) = a.
Proof.
  intros ->. rewrite firstn_app, Nat.sub_diag, firstn_all. simpl.
  now rewrite app_nil_r.
Qed.

Lemma slice0_prefix s e : exists rest, s = slice0 s e ++ rest.
Proof.
  unfold slice0. eexists. symmetry. apply firstn_skipn.
Qed.

End TrimFacts.

(* ================================================================== *)
(** * src/utils/format.ts: what the slug keeps, how truncation composes  *)
(* ================================================================== *)

Module FormatExtra.
Import Js Format JsFacts TrimFacts.

(** *** Code units that a step neither removes nor produces *)

Section Kept.

Variable keep : codeunit -> bool.
Variable p : codeunit -> bool.
Hypothesis keep_outside : forall c, keep c = true -> p c = false.

Lemma keep_false_of_class c : p c = true -> keep c = false.
Proof.
  intros Hp. destruct (keep c) eqn:Hk; [|reflexivity].
  apply keep_outside in Hk. congruence.
Qed.

Lemma filter_removeAll s : List.filter keep (removeAll p s) = List.filter keep s.
Proof.
  unfold removeAll. induction s as [|c t IH]; simpl; [reflexivity|].
  destruct (p c) eqn:Hp; simpl.
  - now rewrite (keep_false_of_class c Hp).
  - now rewrite IH.
Qed.

Lemma filter_replaceRuns r b s :
  keep r = false ->
  List.filter keep (replaceRuns_from p r b s) = List.filter keep s.
Proof.
  intros Hr. revert b. induction s as [|c t IH]; intros b; simpl; [reflexivity|].
  destruct (p c) eqn:Hp.
  - rewrite (keep_false_of_class c Hp).
    destruct b; simpl; [|rewrite Hr]; apply IH.
  - simpl. now rewrite IH.
Qed.

Lemma filter_dropWhile s : List.filter keep (dropWhile p s) = List.filter keep s.
Proof.
  induction s as [|c t IH]; simpl; [reflexivity|].
  destruct (p c) eqn:Hp; [|reflexivity].
  now rewrite (keep_false_of_class c Hp).
Qed.

Lemma filter_dropWhileEnd s :
  List.filter keep (dropWhileEnd p s) = List.filter keep s.
Proof.
  induction s as [|c t IH]; [reflexivity|].
  rewrite dropWhileEnd_cons.
  destruct (p c) eqn:Hp; simpl.
  - rewrite (keep_false_of_class c Hp).
    destruct (dropWhileEnd p t) eqn:Hd; simpl; [now rewrite <- IH|].
    now rewrite (keep_false_of_class c Hp), <- IH.
  - now rewrite IH.
Qed.

End Kept.

Lemma filter_nil_iff (f : codeunit -> bool) s :
  List.filter f s = [] <-> Forall (fun c => f c = false) s.
Proof.
  induction s as [|c t IH]; simpl.
  - split; [constructor|reflexivity].
  - destruct (f c) eqn:Hc.
    + split; [discriminate|]. intros H. inversion H. congruence.
    + rewrite IH. split; [now constructor|now inversion 1].
Qed.

Lemma alnum_not_negSlugInput c :
  isLowerAlnum c = true -> negb (isSlugInput c) = false.
Proof.
  intros H. unfold isSlugInput. now rewrite H.
Qed.

Lemma alnum_not_space c : isLowerAlnum c = true -> isWhiteSpace c = false.
Proof.
  intros H. apply SlugProofs.slugChar_not_space. now apply SlugProofs.alnum_slugChar.
Qed.

Lemma alnum_not_mark c : isLowerAlnum c = true -> isCombiningMark c = false.
Proof.
  intros H. apply SlugProofs.slugChar_not_mark. now apply SlugProofs.alnum_slugChar.
Qed.

(** X1.  Whatever the two Unicode built-ins do, the slug consists of the
    ASCII lower-case letters and digits of the lowered and decomposed
    text, all of them and in their order, with hyphens in between; so
    it is empty exactly when that text has no such letter or digit. *)
Theorem generateSlug_keeps_letters_and_digits
  (toLowerCase normalizeNFD : jsstring -> jsstring) (x : jsstring) :
  List.filter isLowerAlnum (generateSlug toLowerCase normalizeNFD x)
    = List.filter isLowerAlnum (normalizeNFD (toLowerCase x))
  /\ (generateSlug toLowerCase normalizeNFD x = []
      <-> Forall (fun c => isLowerAlnum c = false) (normalizeNFD (toLowerCase x))).
Proof.
  assert (Hkeep :
    List.filter isLowerAlnum (generateSlug toLowerCase normalizeNFD x)
      = List.filter isLowerAlnum (normalizeNFD (toLowerCase x))).
  { unfold generateSlug, stripHyphens, replaceRuns, trim, trimEnd, trimStart.
    rewrite (filter_dropWhileEnd _ _ alnum_not_space).
    rewrite (filter_dropWhile _ _ alnum_not_space).
    rewrite (filter_dropWhileEnd _ _ SlugProofs.alnum_not_hyphen).
    rewrite (filter_dropWhile _ _ SlugProofs.alnum_not_hyphen).
    rewrite (filter_replaceRuns _ _ SlugProofs.alnum_not_hyphen) by reflexivity.
    rewrite (filter_replaceRuns _ _ alnum_not_space) by reflexivity.
    rewrite (filter_removeAll _ _ alnum_not_negSlugInput).
    apply (filter_removeAll _ _ alnum_not_mark). }
  split; [exact Hkeep|].
  rewrite <- filter_nil_iff, <- Hkeep. split.
  - intros ->. reflexivity.
  - intros Hnone.
    destruct (SlugProofs.generateSlug_accepted toLowerCase normalizeNFD x)
      as [H|H]; [assumption|].
    destruct (generateSlug toLowerCase normalizeNFD x) as [|c t];
      [reflexivity|].
    simpl in H, Hnone.
    destruct (isLowerAlnum c); [discriminate Hnone|].
    destruct (isHyphen c); discriminate H.
Qed.

(** *** [truncateText] outside the general case *)

Lemma truncateText_short text maxLength suffix :
  len text <= maxLength -> truncateText text maxLength suffix = text.
Proof.
  intros H. unfold truncateText.
  destruct (Z.leb_spec (len text) maxLength); [reflexivity|lia].
Qed.

Lemma truncateText_small text maxLength suffix :
  0 <= maxLength -> maxLength < len text -> maxLength < len suffix ->
  truncateText text maxLength suffix = slice0 text maxLength ++ suffix.
Proof.
  intros H0 Hlong Hsmall. unfold truncateText.
  destruct (Z.leb_spec (len text) maxLength); [lia|].
  assert (Hs : isEmpty suffix = false).
  { destruct suffix; [|reflexivity].
    unfold len in Hsmall. simpl in Hsmall. lia. }
  rewrite Hs. simpl.
  destruct (Z.ltb_spec maxLength (len suffix)); [reflexivity|lia].
Qed.

Lemma truncateText_no_suffix text maxLength :
  maxLength < len text ->
  truncateText text maxLength [] = trim (slice0 text maxLength).
Proof.
  intros Hlong. unfold truncateText.
  destruct (Z.leb_spec (len text) maxLength); [lia|]. reflexivity.
Qed.

Lemma len_firstn_exact (s : jsstring) n :
  0 <= n <= len s -> len (firstn (Z.to_nat n) s) = n.
Proof.
  unfold len. intros H. rewrite length_firstn. lia.
Qed.

(** X2.  When [maxLength] is smaller than the suffix, a longer text is
    cut to its first [maxLength] code units, untrimmed, and the whole
    suffix is appended: the result is [suffix.length] longer than
    [maxLength]. *)
Theorem truncateText_suffix_longer_than_maxLength text maxLength suffix :
  0 <= maxLength -> maxLength < len suffix -> maxLength < len text ->
  truncateText text maxLength suffix
    = firstn (Z.to_nat maxLength) text ++ suffix
  /\ len (truncateText text maxLength suffix) = maxLength + len suffix.
Proof.
  intros H0 Hsmall Hlong.
  rewrite (truncateText_small text maxLength suffix H0 Hlong Hsmall).
  rewrite slice0_firstn by lia.
  split; [reflexivity|].
  rewrite len_app, len_firstn_exact by lia. reflexivity.
Qed.

Lemma truncateText_suffix_longer_than_maxLength_witness :
  let text := lit "   " in
  0 <= 2 /\ 2 < len (lit "...") /\ 2 < len text
  /\ truncateText text 2 (lit "...") = lit "  ..."
  /\ len (truncateText text 2 (lit "...")) = 5.
Proof.
  intros text.
  assert (H0 : 0 <= 2) by lia.
  assert (H1 : 2 < len (lit "...")) by reflexivity.
  assert (H2 : 2 < len text) by reflexivity.
  repeat (split; [assumption|]).
  exact (truncateText_suffix_longer_than_maxLength text 2 (lit "...") H0 H1 H2).
Defined.

(** X3.  With the empty suffix a longer text is cut to its first
    [maxLength] code units and trimmed: the result is at most
    [maxLength] long, has no white space at either end, and is what
    is left of that prefix once the white space around it is gone. *)
Theorem truncateText_without_suffix text maxLength :
  0 <= maxLength -> maxLength < len text ->
  let result := truncateText text maxLength [] in
  len result <= maxLength
  /\ trim result = result
  /\ exists before after,
       firstn (Z.to_nat maxLength) text = before ++ result ++ after
       /\ Forall (fun c => isWhiteSpace c = true) before
       /\ Forall (fun c => isWhiteSpace c = true) after.
Proof.
  intros H0 Hlong result. unfold result.
  rewrite (truncateText_no_suffix text maxLength Hlong).
  rewrite slice0_firstn by lia.
  split; [|split].
  - pose proof (trim_len (firstn (Z.to_nat maxLength) text)).
    rewrite len_firstn_exact in H by lia. assumption.
  - apply trim_idem.
  - apply trim_split.
Qed.

Lemma truncateText_without_suffix_witness :
  let text := lit "This is a very long text" in
  0 <= 10 /\ 10 < len text
  /\ truncateText text 10 [] = lit "This is a"
  /\ len (truncateText text 10 []) <= 10
  /\ trim (truncateText text 10 []) = truncateText text 10 [].
Proof.
  intros text.
  assert (H0 : 0 <= 10) by lia.
  assert (H1 : 10 < len text) by reflexivity.
  repeat (split; [assumption|]).
  split; [reflexivity|].
  destruct (truncateText_without_suffix text 10 H0 H1) as (Hlen & Htrim & _).
  split; assumption.
Defined.

(** X4.  For a non-negative [maxLength], truncating what
    [truncateText] returned, with the same arguments, changes nothing:
    also where the result is longer than [maxLength]. *)
Theorem truncateText_idempotent text maxLength suffix :
  0 <= maxLength ->
  truncateText (truncateText text maxLength suffix) maxLength suffix
    = truncateText text maxLength suffix.
Proof.
  intros H0.
  destruct (Z.leb_spec (len text) maxLength) as [Hshort|Hlong].
  - now rewrite !(truncateText_short text maxLength suffix Hshort).
  - destruct suffix as [|c suffix'] eqn:Hsuf.
    + apply truncateText_short.
      rewrite (truncateText_no_suffix text maxLength Hlong).
      pose proof (trim_len (slice0 text maxLength)).
      pose proof (slice0_len_bound text maxLength H0). lia.
    + rewrite <- Hsuf.
      assert (Hne : suffix <> []) by (rewrite Hsuf; discriminate).
      destruct (Z.ltb_spec maxLength (len suffix)) as [Hsmall|Hfit].
      * rewrite (truncateText_small text maxLength suffix H0 Hlong Hsmall).
        rewrite slice0_firstn by lia.
        assert (Hlen : len (firstn (Z.to_nat maxLength) text) = maxLength)
          by (apply len_firstn_exact; lia).
        rewrite truncateText_small;
          [|assumption|rewrite len_app; pose proof (len_nonneg suffix); lia
           |assumption].
        rewrite slice0_firstn
          by (rewrite len_app; pose proof (len_nonneg suffix); lia).
        rewrite firstn_app_exact; [reflexivity|].
        unfold len in Hlen. lia.
      * apply truncateText_short.
        now apply TruncateProofs.truncateText_long_len.
Qed.

Lemma truncateText_idempotent_witness :
  0 <= 2
  /\ truncateText (lit "This is a very long text") 2 (lit "...") = lit "Th..."
  /\ truncateText (lit "Th...") 2 (lit "...") = lit "Th..."
  /\ truncateText (truncateText (lit "The quick brown fox jumps") 20 (lit "..."))
       20 (lit "...")
     = truncateText (lit "The quick brown fox jumps") 20 (lit "...").
Proof.
  assert (H0 : 0 <= 2) by lia.
  split; [exact H0|]. split; [reflexivity|]. split; [reflexivity|].
  exact (truncateText_idempotent (lit "The quick brown fox jumps") 20 (lit "...")
           ltac:(lia)).
Defined.

Lemma keptText_prefix text maxLength suffix :
  exists rest, text = keptText text maxLength suffix ++ rest.
Proof.
  unfold keptText.
  set (region := slice0 text (maxLength - len suffix)).
  destruct (slice0_prefix text (maxLength - len suffix)) as (r1 & H1).
  fold region in H1.
  destruct (slice0_prefix region (lastIndexOf SPACE region)) as (r2 & H2).
  repeat match goal with |- context [if ?b then _ else _] => destruct b end;
    try (now exists r1).
  exists (r2 ++ r1). rewrite app_assoc, <- H2. exact H1.
Qed.

(** X5.  In the general case (text longer than [maxLength], non-empty
    suffix that fits) the result is a piece of the text followed by the
    suffix: the piece starts after leading white space of the text, is
    taken without a gap, and has no white space at either end. *)
Theorem truncateText_body_comes_from_text text maxLength suffix :
  maxLength < len text -> suffix <> [] -> len suffix <= maxLength ->
  exists before body rest,
    truncateText text maxLength suffix = body ++ suffix
    /\ text = before ++ body ++ rest
    /\ Forall (fun c => isWhiteSpace c = true) before
    /\ trim body = body
    /\ len before + len body <= maxLength - len suffix.
Proof.
  intros Hlong Hsuf Hfit.
  destruct (keptText_prefix text maxLength suffix) as (rest & Hrest).
  destruct (trim_split (keptText text maxLength suffix))
    as (before & after & Hkept & Hbefore & _).
  exists before, (trim (keptText text maxLength suffix)), (after ++ rest).
  split; [now apply TruncateProofs.truncateText_general|].
  split; [|split; [assumption|split; [apply trim_idem|]]].
  - rewrite Hrest at 1. rewrite Hkept at 1. now rewrite <- !app_assoc.
  - pose proof (TruncateProofs.keptText_len text maxLength suffix Hfit) as Hlen.
    rewrite Hkept in Hlen at 1. rewrite !len_app in Hlen.
    pose proof (len_nonneg after). lia.
Qed.

Lemma truncateText_body_comes_from_text_witness :
  let text := lit "  The quick brown fox jumps over the lazy dog" in
  let suffix := lit "..." in
  22 < len text /\ suffix <> [] /\ len suffix <= 22
  /\ truncateText text 22 suffix = lit "The quick brown..."
  /\ exists before body rest,
       truncateText text 22 suffix = body ++ suffix
       /\ text = before ++ body ++ rest
       /\ Forall (fun c => isWhiteSpace c = true) before
       /\ trim body = body.
Proof.
  intros text suffix.
  assert (H1 : 22 < len text) by reflexivity.
  assert (H2 : suffix <> []) by discriminate.
  assert (H3 : len suffix <= 22) by (vm_compute; discriminate).
  repeat (split; [assumption|]). split; [reflexivity|].
  destruct (truncateText_body_comes_from_text text 22 suffix H1 H2 H3)
    as (before & body & rest & Hr & Ht & Hb & Htrim & _).
  exists before, body, rest. repeat split; assumption.
Defined.

End FormatExtra.

(* ================================================================== *)
(** * The quantity control: buttons and the controlled input            *)
(* ================================================================== *)

Module QuantityExtra.
Import Js ProductActions Controls NumberFacts.

Lemma runEvents_app st es1 es2 :
  runEvents st (es1 ++ es2) = runEvents (runEvents st es1) es2.
Proof. apply fold_left_app. Qed.

(** X6.  After a click on the increment button the quantity is between
    2 and 10, whatever happened before: a larger quantity, which only
    the direct input can have stored, is lowered to 10 by the click. *)
Theorem increment_returns_to_range es :
  let st := runEvents initialState es in
  2 <= quantity (step st ClickIncrement) <= 10
  /\ (10 <= quantity st -> quantity (step st ClickIncrement) = 10)
  /\ quantity (runEvents initialState [InputChange (lit "250"); ClickIncrement]) = 10.
Proof.
  intros st.
  assert (H : 1 <= quantity st)
    by (apply QuantityProofs.runEvents_quantity_lower; simpl; lia).
  cbn [step]. rewrite QuantityProofs.incrementQuantity_quantity by assumption.
  split; [lia|]. split; [lia|reflexivity].
Qed.

Lemma setQuantity_same st : setQuantity (quantity st) st = st.
Proof. now destruct st. Qed.

(** X7.  The two stepper buttons undo each other strictly inside the
    range: increment then decrement restores the state for a quantity
    from 1 to 9, decrement then increment for one from 2 to 10.  At the
    ends they do not: from 10 the pair gives 9, from 1 it gives 2. *)
Theorem stepper_round_trip st :
  (1 <= quantity st <= 9 -> decrementQuantity (incrementQuantity st) = st)
  /\ (2 <= quantity st <= 10 -> incrementQuantity (decrementQuantity st) = st)
  /\ (quantity st = 10 -> quantity (decrementQuantity (incrementQuantity st)) = 9)
  /\ (quantity st = 1 -> quantity (incrementQuantity (decrementQuantity st)) = 2).
Proof.
  unfold decrementQuantity, incrementQuantity, setQuantity.
  cbn [quantity cartStatus now timers].
  repeat split; intros H.
  - rewrite (toDouble_small (quantity st + 1)) by lia.
    rewrite toDouble_small by lia.
    replace (Z.max 1 (Z.min 10 (quantity st + 1) - 1)) with (quantity st) by lia.
    now destruct st.
  - rewrite (toDouble_small (quantity st - 1)) by lia.
    rewrite toDouble_small by lia.
    replace (Z.min 10 (Z.max 1 (quantity st - 1) + 1)) with (quantity st) by lia.
    now destruct st.
  - rewrite H. reflexivity.
  - rewrite H. reflexivity.
Qed.

Lemma stepper_round_trip_witness :
  let st := runEvents initialState [InputChange (lit "5"); CallHandleAddToCart] in
  1 <= quantity st <= 9 /\ 2 <= quantity st <= 10
  /\ decrementQuantity (incrementQuantity st) = st
  /\ incrementQuantity (decrementQuantity st) = st.
Proof.
  intros st.
  assert (H1 : 1 <= quantity st <= 9) by (vm_compute; split; discriminate).
  assert (H2 : 2 <= quantity st <= 10) by (vm_compute; split; discriminate).
  split; [exact H1|]. split; [exact H2|].
  destruct (stepper_round_trip st) as (Ha & Hb & _).
  split; [exact (Ha H1)|exact (Hb H2)].
Defined.

(** X8.  In every state of a run a click on the disabled decrement
    button would change nothing; for a quantity of at most 2^53 the
    button is disabled exactly then.  Beyond 2^53 the difference [q - 1]
    is rounded: after the direct input [100000000000000000000] the
    button is enabled and a click changes nothing.  The increment
    button is never disabled, although at 10 a click changes nothing. *)
Theorem decrement_disabled_and_no_effect es :
  let st := runEvents initialState es in
  (decrementDisabled st = true -> decrementQuantity st = st)
  /\ (quantity st <= 2 ^ 53 ->
      (decrementDisabled st = true <-> decrementQuantity st = st))
  /\ (quantity st = 10 -> incrementQuantity st = st)
  /\ (let large :=
        runEvents initialState [InputChange (lit "100000000000000000000")] in
      decrementDisabled large = false /\ decrementQuantity large = large).
Proof.
  intros st.
  assert (H : 1 <= quantity st)
    by (apply QuantityProofs.runEvents_quantity_lower; simpl; lia).
  assert (Hdisabled : decrementDisabled st = true -> decrementQuantity st = st).
  { unfold decrementDisabled. intros Hd. apply Z.leb_le in Hd.
    rewrite <- (setQuantity_same st) at 2. unfold decrementQuantity. f_equal.
    rewrite toDouble_small; lia. }
  split; [exact Hdisabled|]. split; [|split].
  - intros Hle. split; [exact Hdisabled|].
    intros Hsame. unfold decrementDisabled. apply Z.leb_le.
    apply (f_equal quantity) in Hsame.
    rewrite QuantityProofs.decrementQuantity_quantity in Hsame; lia.
  - intros H10. rewrite <- (setQuantity_same st) at 2.
    unfold incrementQuantity. f_equal. rewrite H10. reflexivity.
  - split; vm_compute; reflexivity.
Qed.

Lemma decrement_disabled_and_no_effect_witness :
  let st := runEvents initialState [ClickIncrement; ClickDecrement] in
  let full := runEvents initialState [InputChange (lit "10")] in
  decrementDisabled st = true /\ quantity st <= 2 ^ 53 /\ quantity full = 10
  /\ decrementQuantity st = st
  /\ (decrementDisabled st = true <-> decrementQuantity st = st)
  /\ incrementQuantity full = full.
Proof.
  intros st full.
  assert (H1 : decrementDisabled st = true) by reflexivity.
  assert (H2 : quantity st <= 2 ^ 53) by (vm_compute; discriminate).
  assert (H3 : quantity full = 10) by reflexivity.
  destruct (decrement_disabled_and_no_effect
              [ClickIncrement; ClickDecrement]) as (Ha & Hb & _).
  destruct (decrement_disabled_and_no_effect [InputChange (lit "10")])
    as (_ & _ & Hc & _).
  split; [exact H1|]. split; [exact H2|]. split; [exact H3|].
  split; [exact (Ha H1)|]. split; [exact (Hb H2)|exact (Hc H3)].
Defined.

(** *** Quantity and cart submission do not touch each other *)

Lemma step_cart_event_quantity st e :
  isQuantityEvent e = false -> quantity (step st e) = quantity st.
Proof.
  destruct e; simpl; try discriminate; intros _; try reflexivity.
  apply QuantityProofs.fireNextTimer_quantity.
Qed.

Lemma fireNextTimer_with_quantity random q st :
  fireNextTimer random (setQuantity q st) = setQuantity q (fireNextTimer random st).
Proof.
  unfold fireNextTimer. simpl.
  destruct (nextTimer (timers st)) as [[t rest]|]; [|reflexivity].
  destruct (run t); simpl; [|reflexivity].
  unfold resumeAddToCart. destruct (randomAboveThreshold random); reflexivity.
Qed.

Lemma step_cart_event_with_quantity q st e :
  isQuantityEvent e = false ->
  step (setQuantity q st) e = setQuantity q (step st e).
Proof.
  destruct e; simpl; try discriminate; intros _; try reflexivity.
  apply fireNextTimer_with_quantity.
Qed.

Lemma step_quantity_event_frame st e :
  isQuantityEvent e = true ->
  step st e = setQuantity (quantity (step st e)) st.
Proof.
  destruct e; simpl; try discriminate; intros _; try reflexivity.
  unfold handleInputChange.
  destruct (parseInt value) as [v|]; [|now rewrite setQuantity_same].
  destruct (v >=? 1); [reflexivity|now rewrite setQuantity_same].
Qed.

Lemma step_quantity_event_quantity st1 st2 e :
  isQuantityEvent e = true -> quantity st1 = quantity st2 ->
  quantity (step st1 e) = quantity (step st2 e).
Proof.
  destruct e; simpl; try discriminate; intros _ Hq; try (now rewrite Hq).
  unfold handleInputChange.
  destruct (parseInt value) as [v|]; [|assumption].
  destruct (v >=? 1); [reflexivity|assumption].
Qed.

Lemma runEvents_quantity_only es : forall st1 st2,
  quantity st1 = quantity st2 ->
  quantity (runEvents st1 (List.filter isQuantityEvent es))
    = quantity (runEvents st2 es).
Proof.
  induction es as [|e es IH]; intros st1 st2 Hq; [assumption|].
  simpl. destruct (isQuantityEvent e) eqn:He; simpl; apply IH.
  - now apply step_quantity_event_quantity.
  - now rewrite (step_cart_event_quantity st2 e He).
Qed.

Lemma same_cart_eta st1 st2 :
  cartStatus st1 = cartStatus st2 -> now st1 = now st2 ->
  timers st1 = timers st2 -> st1 = setQuantity (quantity st1) st2.
Proof.
  destruct st1, st2. simpl. intros -> -> ->. reflexivity.
Qed.

Lemma runEvents_cart_only es : forall st1 st2,
  cartStatus st1 = cartStatus st2 -> now st1 = now st2 ->
  timers st1 = timers st2 ->
  let r1 := runEvents st1 es in
  let r2 := runEvents st2 (List.filter (fun e => negb (isQuantityEvent e)) es) in
  cartStatus r1 = cartStatus r2 /\ now r1 = now r2 /\ timers r1 = timers r2.
Proof.
  induction es as [|e es IH]; intros st1 st2 Hs Hn Ht; [now repeat split|].
  simpl. destruct (isQuantityEvent e) eqn:He; simpl.
  - apply IH; rewrite (step_quantity_event_frame st1 e He); assumption.
  - rewrite (same_cart_eta st1 st2 Hs Hn Ht).
    rewrite (step_cart_event_with_quantity _ st2 e He).
    apply IH; reflexivity.
Qed.

(** X9.  The quantity at the end of a run is the one the quantity
    events alone produce, and status, clock and pending timers are the
    ones the other events alone produce: neither side influences the
    other. *)
Theorem quantity_and_cart_independent es :
  let st := runEvents initialState es in
  let quantityOnly := runEvents initialState (List.filter isQuantityEvent es) in
  let cartOnly :=
    runEvents initialState (List.filter (fun e => negb (isQuantityEvent e)) es) in
  quantity st = quantity quantityOnly
  /\ cartStatus st = cartStatus cartOnly
  /\ now st = now cartOnly
  /\ timers st = timers cartOnly.
Proof.
  cbv zeta. split.
  - symmetry. now apply runEvents_quantity_only.
  - now apply runEvents_cart_only.
Qed.

End QuantityExtra.

(* ================================================================== *)
(** * The controlled quantity input reads back what it shows            *)
(* ================================================================== *)

Module InputRoundTrip.
Import Js ProductActions Controls ParseIntFacts.



Example numberToString_examples :
  numberToString 0 = lit "0"
  /\ numberToString 7 = lit "7"
  /\ numberToString 10 = lit "10"
  /\ numberToString 250 = lit "250"
  /\ numberToString (-31) = lit "-31"
  /\ numberToString 9007199254740991 = lit "9007199254740991".
Proof. repeat split. Qed.

End InputRoundTrip.

(* ================================================================== *)
(** * The cart-submission status always finds its way back to idle      *)
(* ================================================================== *)

Module CartExtra.
Import Js ProductActions Controls.

Lemma nextTimer_nil ts : nextTimer ts = None -> ts = [].
Proof.
  destruct ts as [|t rest]; [reflexivity|]. simpl.
  destruct (nextTimer rest) as [[t' rest']|]; [|discriminate].
  destruct (due t <=? due t'); discriminate.
Qed.

Lemma firingsLeft_cons t ts :
  firingsLeft (t :: ts)
    = ((match run t with ResumeAddToCart => 2 | RevertToIdle => 1 end)
       + firingsLeft ts)%nat.
Proof. reflexivity. Qed.

Lemma firingsLeft_app ts1 ts2 :
  firingsLeft (ts1 ++ ts2) = (firingsLeft ts1 + firingsLeft ts2)%nat.
Proof.
  unfold firingsLeft. now rewrite map_app, list_sum_app.
Qed.

Lemma nextTimer_firingsLeft ts : forall t rest,
  nextTimer ts = Some (t, rest) ->
  firingsLeft ts = (firingsLeft [t] + firingsLeft rest)%nat.
Proof.
  induction ts as [|t0 ts IH]; intros t rest; simpl; [discriminate|].
  destruct (nextTimer ts) as [[t' rest']|] eqn:Hn.
  - specialize (IH t' rest' eq_refl).
    destruct (due t0 <=? due t'); intros [= <- <-];
      rewrite ?firingsLeft_cons in *;
      change (firingsLeft []) with 0%nat in *; lia.
  - intros [= <- <-]. apply nextTimer_nil in Hn. subst.
    rewrite ?firingsLeft_cons. change (firingsLeft []) with 0%nat. lia.
Qed.

Lemma firingsLeft_zero ts : firingsLeft ts = 0%nat -> ts = [].
Proof.
  destruct ts as [|t ts]; [reflexivity|].
  rewrite firingsLeft_cons. destruct (run t); lia.
Qed.

(** One firing: one timer less to fire, and the new status is backed. *)
Lemma fireNextTimer_progress random st :
  timers st <> [] ->
  S (firingsLeft (timers (fireNextTimer random st))) = firingsLeft (timers st)
  /\ backed (fireNextTimer random st).
Proof.
  intros Hne. unfold fireNextTimer.
  destruct (nextTimer (timers st)) as [[t rest]|] eqn:Hn;
    [|apply nextTimer_nil in Hn; contradiction].
  rewrite (nextTimer_firingsLeft _ _ _ Hn), firingsLeft_cons.
  change (firingsLeft []) with 0%nat.
  destruct (run t); cbn -[firingsLeft].
  - unfold resumeAddToCart.
    destruct (randomAboveThreshold random); cbn -[firingsLeft];
      (split;
       [rewrite firingsLeft_app, firingsLeft_cons;
        change (firingsLeft []) with 0%nat; cbn [run]; lia|]);
      unfold backed, hasPending; simpl;
      eexists; apply in_or_app; right; left; reflexivity.
  - split; [lia|exact I].
Qed.

Lemma fireAll_settles draws : forall st,
  backed st ->
  List.length draws = firingsLeft (timers st) ->
  cartStatus (fireAll draws st) = idle /\ timers (fireAll draws st) = [].
Proof.
  induction draws as [|r draws IH]; intros st Hb Hlen; simpl in *.
  - symmetry in Hlen. apply firingsLeft_zero in Hlen.
    split; [|assumption].
    unfold backed, hasPending in Hb. rewrite Hlen in Hb.
    destruct (cartStatus st); try reflexivity; destruct Hb as [d []].
  - assert (Hne : timers st <> [])
      by (intros He; rewrite He in Hlen; discriminate).
    destruct (fireNextTimer_progress r st Hne) as [Hcount Hb'].
    apply IH; [assumption|lia].
Qed.

Lemma step_backed st e :
  isSetterCall e = false -> backed st -> backed (step st e).
Proof.
  destruct e; simpl; try discriminate; intros _ Hb; try assumption.
  - unfold backed, hasPending in *.
    destruct (CartStatusProofs.handleInputChange_status value st) as [-> ->].
    assumption.
  - unfold backed, hasPending. simpl.
    eexists. apply in_or_app. right. left. reflexivity.
  - destruct (timers st) as [|t ts] eqn:Ht.
    + unfold fireNextTimer. now rewrite Ht.
    + apply fireNextTimer_progress. rewrite Ht. discriminate.
Qed.

Lemma runEvents_backed es : forall st,
  forallb (fun e => negb (isSetterCall e)) es = true ->
  backed st -> backed (runEvents st es).
Proof.
  induction es as [|e es IH]; intros st Hes Hb; [assumption|].
  simpl in Hes. apply Bool.andb_true_iff in Hes. destruct Hes as [He Hes].
  simpl. apply IH; [assumption|].
  apply step_backed; [now apply Bool.negb_true_iff|assumption].
Qed.

(** X11.  In a run in which [setCartStatus] is not called from outside
    (guarded or not, with overlapping submissions too), the status is
    [loading] only while a resume of [handleAddToCart] is pending, and
    [success] or [error] only while a revert is pending.  Once the
    pending timers have fired, each resume with the revert it sets, the
    status is [idle] and no timer is left: it cannot stay stuck. *)
Theorem status_returns_to_idle es draws :
  forallb (fun e => negb (isSetterCall e)) es = true ->
  let st := runEvents initialState es in
  (cartStatus st = loading -> hasPending ResumeAddToCart st)
  /\ (cartStatus st = success \/ cartStatus st = error ->
      hasPending RevertToIdle st)
  /\ (List.length draws = firingsLeft (timers st) ->
      cartStatus (fireAll draws st) = idle /\ timers (fireAll draws st) = []).
Proof.
  intros Hes st.
  assert (Hb : backed st) by (apply runEvents_backed; [assumption|exact I]).
  split; [|split].
  - intros Hs. unfold backed in Hb. now rewrite Hs in Hb.
  - intros [Hs|Hs]; unfold backed in Hb; now rewrite Hs in Hb.
  - now apply fireAll_settles.
Qed.

Lemma status_returns_to_idle_witness :
  let es := [CallHandleAddToCart; TimerFires 0.1; Wait 2500;
             CallHandleAddToCart; ClickIncrement; CallHandleAddToCart] in
  let st := runEvents initialState es in
  forallb (fun e => negb (isSetterCall e)) es = true
  /\ cartStatus st = loading
  /\ firingsLeft (timers st) = 5%nat
  /\ hasPending ResumeAddToCart st
  /\ cartStatus (fireAll [0.5; 0.1; 0.9; 0; 0]%Q st) = idle
  /\ timers (fireAll [0.5; 0.1; 0.9; 0; 0]%Q st) = [].
Proof.
  intros es st.
  assert (Hes : forallb (fun e => negb (isSetterCall e)) es = true) by reflexivity.
  split; [exact Hes|]. split; [reflexivity|]. split; [reflexivity|].
  destruct (status_returns_to_idle es [0.5; 0.1; 0.9; 0; 0]%Q Hes)
    as (Hload & _ & Hsettle).
  split; [exact (Hload eq_refl)|].
  exact (Hsettle eq_refl).
Defined.

End CartExtra.

(* ================================================================== *)
(** * The product page on top of the product client                     *)
(* ================================================================== *)

Module PageProofs.
Import Api Page ApiProofs.
Local Open Scope string_scope.

Lemma status_httpError st : status (httpError st) = st.
Proof. reflexivity. Qed.

(** X12.  What a request for the product page ends in, by the answer of
    the backend.  The page is rendered for a 2xx answer with a body
    other than [null].  The not-found page is shown for a 404 answer
    whose body decodes to something other than [null] and whose message
    converts to a string, and for a 400 answer.  Everything else fails
    the request: with the connection error (also for a 404 whose body
    is undecodable or [null], or whose message does not convert to a
    string), with the HTTP error of the status, or, for a 2xx answer
    with body [null], with a [TypeError] that is not an [ApiError]. *)
Theorem ProductPage_outcome env fetch sku :
  ProductPage env fetch sku =
  match fetch (productUrl env sku) with
  | inl _ => PageFails (ThrownApiError connectionError)
  | inr response =>
      if ok response then
        match responseJson response with
        | inl _ => PageFails (ThrownApiError connectionError)
        | inr JNull => PageFails (ThrownRaw TypeError)
        | inr product => Rendered product
        end
      else if (responseStatus response =? 404)%Z then
        match responseJson response with
        | inl _ | inr JNull => PageFails (ThrownApiError connectionError)
        | inr errorData =>
            if toStringThrows (notFoundMessage errorData)
            then PageFails (ThrownApiError connectionError)
            else NotFoundPage
        end
      else if (responseStatus response =? 400)%Z then NotFoundPage
      else PageFails (ThrownApiError (httpError (responseStatus response)))
  end.
Proof.
  unfold ProductPage.
  destruct (fetch (productUrl env sku)) as [r|response] eqn:Hf.
  - now rewrite (getProductBySku_rejected_fetch _ _ _ _ Hf).
  - destruct (ok response) eqn:Hok.
    + rewrite (getProductBySku_ok _ _ _ _ Hf Hok).
      now destruct (responseJson response) as [r|[| | | | |]].
    + destruct (Z.eqb_spec (responseStatus response) 404) as [H404|Hother].
      * rewrite (getProductBySku_404 _ _ _ _ Hf H404).
        destruct (responseJson response) as [r|errorData]; [reflexivity|].
        now destruct errorData; try destruct (toStringThrows _).
      * rewrite (getProductBySku_other_status _ _ _ _ Hf Hok Hother).
        cbn [bind]. rewrite status_httpError.
        destruct (Z.eqb_spec (responseStatus response) 404); [contradiction|].
        simpl. destruct (responseStatus response =? 400)%Z; reflexivity.
Qed.

Example ProductPage_examples :
  let sofa := JObject [("sku", JString "sf-comfort-3l-bg")] in
  ProductPage None (answering (inr (mkResponse 200 (inr sofa)))) "sf-comfort-3l-bg"
    = Rendered sofa
  /\ ProductPage None (answering (inr (mkResponse 404 (inr (JObject []))))) "x"
    = NotFoundPage
  /\ ProductPage None (answering (inr (mkResponse 400 (inl SyntaxError)))) "x"
    = NotFoundPage
  /\ ProductPage None (answering (inr (mkResponse 404 (inl SyntaxError)))) "x"
    = PageFails (ThrownApiError connectionError)
  /\ ProductPage None
       (answering (inr (mkResponse 404
          (inr (JObject [("message", JObject [("toString", JNumber 1)])])))))
       "x"
    = PageFails (ThrownApiError connectionError)
  /\ ProductPage None (answering (inr (mkResponse 200 (inr JNull)))) "x"
    = PageFails (ThrownRaw TypeError)
  /\ ProductPage None (answering (inr (mkResponse 503 (inr JNull)))) "x"
    = PageFails (ThrownApiError
        (mkApiError (Str "Erro na API: 503") 503 None)).
Proof. repeat split. Qed.

End PageProofs.

(* ================================================================== *)
(** * src/lib/sitemap-data.ts: the products of the sitemap              *)
(* ================================================================== *)

Module SitemapDataProofs.
Import Api SitemapData.
Local Open Scope string_scope.

(** X13.  [getProductsForSitemap] never rejects.  With [API_BASE_URL]
    set it returns [data.products] as the backend sent it, inactive
    products included, when the answer is 2xx and that property is
    truthy; in every other case (failed request, other status,
    undecodable or [null] body, no or falsy [products]) it returns the
    empty list.  Without [API_BASE_URL] it returns the built-in
    products, all of which are active. *)
Theorem getProductsForSitemap_outcome base fetch :
  base <> EmptyString ->
  getProductsForSitemap (Some base) fetch =
    Fulfilled
      match fetch (base ++ "/products/sitemap") with
      | inl _ => ProductList []
      | inr response =>
          if ok response then
            match responseJson response with
            | inr (JObject fields) =>
                match lookupField "products" fields with
                | Some v => if truthy v then ApiProducts v else ProductList []
                | None => ProductList []
                end
            | inr _ | inl _ => ProductList []
            end
          else ProductList []
      end
  /\ getProductsForSitemap (Some EmptyString) fetch
     = Fulfilled (ProductList mockProducts)
  /\ getProductsForSitemap None fetch = Fulfilled (ProductList mockProducts)
  /\ Forall (fun product => isActive product = true) mockProducts.
Proof.
  intros Hbase.
  split; [|split; [reflexivity|split; [reflexivity|repeat constructor]]].
  unfold getProductsForSitemap.
  assert (Hne : String.eqb base EmptyString = false)
    by now apply String.eqb_neq.
  rewrite Hne. cbn [negb].
  destruct (fetch (base ++ "/products/sitemap")) as [r|response];
    [reflexivity|].
  cbn [await bind]. destruct (ok response); [|reflexivity]. cbn [negb].
  destruct (responseJson response) as [r|[| | | | |fields]]; reflexivity.
Qed.

Lemma getProductsForSitemap_outcome_witness :
  let mixed :=
    JArray [JObject [("sku", JString "active-product"); ("isActive", JBool true)];
            JObject [("sku", JString "inactive-product"); ("isActive", JBool false)]] in
  "https://api.example.com" <> EmptyString
  /\ getProductsForSitemap (Some "https://api.example.com")
       (answering (inr (mkResponse 200 (inr (JObject [("products", mixed)])))))
     = Fulfilled (ApiProducts mixed)
  /\ getProductsForSitemap (Some "https://api.example.com")
       (answering (inr (mkResponse 200 (inr mixed))))
     = Fulfilled (ProductList [])
  /\ getProductsForSitemap (Some "https://api.example.com")
       (answering (inl (OtherError "Network error")))
     = Fulfilled (ProductList []).
Proof.
  intros mixed.
  assert (Hbase : "https://api.example.com" <> EmptyString) by discriminate.
  split; [exact Hbase|].
  split; [|split; reflexivity].
  exact (proj1 (getProductsForSitemap_outcome "https://api.example.com"
                  (answering (inr (mkResponse 200
                     (inr (JObject [("products", mixed)]))))) Hbase)).
Defined.

End SitemapDataProofs.

(* ================================================================== *)
(** * src/lib/seo-monitoring.ts: the health checks                      *)
(* ================================================================== *)

Module SeoProofs.
Import Js SeoMonitoring.
Local Open Scope string_scope.

Lemma push_not_nil x array : push x array <> [].
Proof. unfold push. destruct array; discriminate. Qed.

(** The status is a summary of the two lists. *)
Lemma statusOf_spec errors warnings :
  (statusOf errors warnings = error <-> errors <> [])
  /\ (statusOf errors warnings = warning <-> errors = [] /\ warnings <> [])
  /\ (statusOf errors warnings = healthy <-> errors = [] /\ warnings = []).
Proof.
  unfold statusOf.
  destruct errors as [|e es], warnings as [|w ws]; simpl;
    repeat split; intros; try discriminate; try congruence;
    repeat match goal with H : _ /\ _ |- _ => destruct H end;
    try discriminate; try congruence.
Qed.

Ltac flags :=
  repeat match goal with
    | H : (_ <? _)%Z = true |- _ => apply Z.ltb_lt in H
    | H : (_ <? _)%Z = false |- _ => apply Z.ltb_ge in H
    end.

(** X14.  The sitemap check.  In every result the status summarises the
    lists: [error] exactly when there is an error, [warning] exactly
    when there are only warnings, [healthy] exactly when there is
    neither.  The result is [healthy] exactly when the sitemap was
    fetched with a 2xx status, its text could be read, and the text has
    at least five [<url>] tags, the XML declaration, the urlset
    declaration and a [<loc>] tag. *)
Theorem checkSitemapHealth_status env clock fetch :
  let r := checkSitemapHealth env clock fetch in
  (sitemapStatus r = error <-> sitemapErrors r <> [])
  /\ (sitemapStatus r = warning <->
      sitemapErrors r = [] /\ sitemapWarnings r <> [])
  /\ (sitemapStatus r = healthy <->
      sitemapErrors r = [] /\ sitemapWarnings r = [])
  /\ (sitemapStatus r = healthy <->
      exists response body,
        fetch (siteUrl env ++ "/sitemap.xml") = inr response
        /\ ok response = true
        /\ text response = inr body
        /\ (5 <= countMatches (lit "<url>") body)%Z
        /\ includes xmlDeclaration body = true
        /\ includes urlsetDeclaration body = true
        /\ includes (lit "<loc>") body = true).
Proof.
  intros r.
  assert (Hfail : forall (errors : list string) (P : Prop),
            errors <> [] -> ~ P ->
            let f := mkSitemapHealthCheck error 0 clock errors [] in
            (sitemapStatus f = error <-> sitemapErrors f <> [])
            /\ (sitemapStatus f = warning <->
                sitemapErrors f = [] /\ sitemapWarnings f <> [])
            /\ (sitemapStatus f = healthy <->
                sitemapErrors f = [] /\ sitemapWarnings f = [])
            /\ (sitemapStatus f = healthy <-> P)).
  { intros errors P Hne HP. simpl.
    split; [split; [intros _; exact Hne|reflexivity]|].
    split; [split; [discriminate|intros [He _]; contradiction]|].
    split; [split; [discriminate|intros [He _]; contradiction]|].
    split; [discriminate|intros HP'; contradiction]. }
  unfold r, checkSitemapHealth.
  destruct (fetch (siteUrl env ++ "/sitemap.xml")) as [thrown|response] eqn:Hf;
    cbn [bind].
  - apply Hfail; [apply push_not_nil|].
    intros (response & body & Hr & _). discriminate.
  - destruct (ok response) eqn:Hok; cbn [negb].
    + destruct (text response) as [thrown|body] eqn:Ht; cbn [bind].
      * apply Hfail; [apply push_not_nil|].
        intros (response' & body' & [= <-] & _ & Hb & _). congruence.
      * cbn [sitemapStatus sitemapErrors sitemapWarnings].
        match goal with
        | |- context [statusOf ?e ?w] =>
            destruct (statusOf_spec e w) as (H1 & H2 & H3)
        end.
        split; [exact H1|]. split; [exact H2|]. split; [exact H3|].
        rewrite H3. unfold pushIf.
        destruct (countMatches (lit "<url>") body <? 5)%Z eqn:Hc,
                 (includes xmlDeclaration body) eqn:Hx,
                 (includes urlsetDeclaration body) eqn:Hu,
                 (includes (lit "<loc>") body) eqn:Hl; cbn [negb]; flags;
          (split;
           [intros [He Hw];
            try (exfalso; revert He; apply push_not_nil);
            try (exfalso; revert Hw; apply push_not_nil);
            exists response, body; repeat split; assumption
           |intros (response' & body' & [= <-] & _ & Hb & Hn & Hx' & Hu' & Hl');
            rewrite Ht in Hb; injection Hb as <-;
            try congruence; try lia; split; reflexivity]).
    + apply Hfail; [apply push_not_nil|].
      intros (response' & body' & [= <-] & Hok' & _). congruence.
Qed.

(** X15.  The robots check.  Its status is determined by the three
    flags it reports: [error] exactly when no [User-agent:] line was
    found, [healthy] exactly when [User-agent:], [Sitemap:] and
    [Disallow:] were all found, [warning] otherwise.  A flag is set only
    if robots.txt was fetched with a 2xx status and its text, which
    could be read, contains the directive; after a failure all three
    are unset. *)
Theorem checkRobotsHealth_status env clock fetch :
  let r := checkRobotsHealth env clock fetch in
  (robotsStatus r = error <-> hasUserAgent r = false)
  /\ (robotsStatus r = healthy <->
      hasUserAgent r = true /\ hasSitemap r = true /\ hasDisallow r = true)
  /\ (robotsStatus r = error <-> robotsErrors r <> [])
  /\ (robotsStatus r = healthy <-> robotsErrors r = [] /\ robotsWarnings r = [])
  /\ (hasUserAgent r = true \/ hasSitemap r = true \/ hasDisallow r = true ->
      exists response body,
        fetch (siteUrl env ++ "/robots.txt") = inr response
        /\ ok response = true
        /\ text response = inr body
        /\ hasUserAgent r = includes (lit "User-agent:") body
        /\ hasSitemap r = includes (lit "Sitemap:") body
        /\ hasDisallow r = includes (lit "Disallow:") body).
Proof.
  intros r.
  assert (Hfail : forall errors : list string,
            errors <> [] ->
            let f := mkRobotsHealthCheck error clock errors [] false false false in
            (robotsStatus f = error <-> hasUserAgent f = false)
            /\ (robotsStatus f = healthy <->
                hasUserAgent f = true /\ hasSitemap f = true /\ hasDisallow f = true)
            /\ (robotsStatus f = error <-> robotsErrors f <> [])
            /\ (robotsStatus f = healthy <->
                robotsErrors f = [] /\ robotsWarnings f = [])
            /\ (hasUserAgent f = true \/ hasSitemap f = true \/ hasDisallow f = true ->
                exists response body,
                  fetch (siteUrl env ++ "/robots.txt") = inr response
                  /\ ok response = true
                  /\ text response = inr body
                  /\ hasUserAgent f = includes (lit "User-agent:") body
                  /\ hasSitemap f = includes (lit "Sitemap:") body
                  /\ hasDisallow f = includes (lit "Disallow:") body)).
  { intros errors Hne. simpl.
    split; [split; reflexivity|].
    split; [split; [discriminate|intros [H _]; discriminate]|].
    split; [split; [intros _; exact Hne|reflexivity]|].
    split; [split; [discriminate|intros [H _]; contradiction]|].
    intros [H|[H|H]]; discriminate. }
  unfold r, checkRobotsHealth.
  destruct (fetch (siteUrl env ++ "/robots.txt")) as [thrown|response] eqn:Hf;
    cbn [bind].
  - apply Hfail, push_not_nil.
  - destruct (ok response) eqn:Hok; cbn [negb];
      [|apply Hfail, push_not_nil].
    destruct (text response) as [thrown|body] eqn:Ht; cbn [bind];
      [apply Hfail, push_not_nil|].
    assert (Hex : exists response0 body0,
              inr response = inr response0 :> Thrown + Response
              /\ ok response0 = true /\ text response0 = inr body0
              /\ includes (lit "User-agent:") body
                 = includes (lit "User-agent:") body0
              /\ includes (lit "Sitemap:") body = includes (lit "Sitemap:") body0
              /\ includes (lit "Disallow:") body
                 = includes (lit "Disallow:") body0)
      by (exists response, body; repeat split; assumption).
    cbn [robotsStatus robotsErrors robotsWarnings hasUserAgent hasSitemap
           hasDisallow].
    split; [|split; [|split; [|split; [|intros _; exact Hex]]]]; clear Hex;
      destruct (includes (lit "User-agent:") body),
               (includes (lit "Sitemap:") body),
               (includes (lit "Disallow:") body); cbn;
      split; intros;
      repeat match goal with H : _ /\ _ |- _ => destruct H end;
      try discriminate; try reflexivity; try congruence;
      try (repeat split; reflexivity); try (intro; discriminate).
Qed.

Lemma Health_eqb_eq a b : Health_eqb a b = true <-> a = b.
Proof. destruct a, b; split; intros; try reflexivity; discriminate. Qed.

(** X16.  The overall status of the SEO report is the worse of the
    statuses of the two checks, in the order healthy, warning, error:
    so it is [healthy] exactly when both checks are, and [error]
    exactly when one of them is. *)
Theorem generateSEOHealthReport_overall env clock fetch :
  let report := generateSEOHealthReport env clock fetch in
  overall report = worse (sitemapStatus (sitemap report))
                         (robotsStatus (robots report))
  /\ (overall report = healthy <->
      sitemapStatus (sitemap report) = healthy
      /\ robotsStatus (robots report) = healthy)
  /\ (overall report = error <->
      sitemapStatus (sitemap report) = error
      \/ robotsStatus (robots report) = error)
  /\ sitemap report = checkSitemapHealth env clock fetch
  /\ robots report = checkRobotsHealth env clock fetch.
Proof.
  intros report. unfold report, generateSEOHealthReport.
  cbn [overall sitemap robots].
  destruct (sitemapStatus (checkSitemapHealth env clock fetch)),
           (robotsStatus (checkRobotsHealth env clock fetch));
    cbn; repeat split; intros; try reflexivity; try discriminate;
    repeat match goal with
      | H : _ /\ _ |- _ => destruct H
      | H : _ \/ _ |- _ => destruct H
      end; try discriminate; auto.
Qed.

(** A sitemap and a robots.txt as the application serves them. *)
Example health_check_examples :
  let sitemapText :=
    (xmlDeclaration ++ urlsetDeclaration
     ++ lit "<url><loc>a</loc></url><url><loc>b</loc></url><url><loc>c</loc></url>"
     ++ lit "<url><loc>d</loc></url><url><loc>e</loc></url></urlset>")%list in
  let robotsText := lit "User-agent: *  Disallow: /api/  Sitemap: x" in
  let site url :=
    if String.eqb url "http://localhost:3001/sitemap.xml"
    then inr (mkResponse 200 "OK" (inr sitemapText))
    else inr (mkResponse 200 "OK" (inr robotsText)) in
  let down (url : string) : Thrown + Response :=
    inr (mkResponse 503 "Service Unavailable" (inl NotAnError)) in
  checkSitemapHealth None 0 site = mkSitemapHealthCheck healthy 5 0 [] []
  /\ overall (generateSEOHealthReport None 0 site) = healthy
  /\ checkSitemapHealth None 0 down
     = mkSitemapHealthCheck error 0 0
         ["Sitemap HTTP error: 503 Service Unavailable"] []
  /\ checkSitemapHealth None 0 (fun _ => inl (ErrorObject "Network error"))
     = mkSitemapHealthCheck error 0 0
         ["Sitemap health check failed: Network error"] []
  /\ robotsStatus
       (checkRobotsHealth None 0
          (fun _ => inr (mkResponse 200 "OK" (inr (lit "User-agent: *")))))
     = warning.
Proof. vm_compute. repeat split. Qed.

End SeoProofs.

(* ================================================================== *)
(** * src/lib/performance.ts: the stored metrics and the budget         *)
(* ================================================================== *)

Module PerformanceProofs.
Import Performance.
Local Open Scope string_scope.

Lemma mapGet_mapSet_same key metric map :
  mapGet key (mapSet key metric map) = Some metric.
Proof.
  induction map as [|[k v] rest IH]; simpl.
  - now rewrite String.eqb_refl.
  - destruct (String.eqb k key) eqn:Hk; simpl; now rewrite Hk.
Qed.

Lemma mapGet_mapSet_other key key' metric map :
  key' <> key -> mapGet key' (mapSet key metric map) = mapGet key' map.
Proof.
  intros Hne. induction map as [|[k v] rest IH]; simpl.
  - destruct (String.eqb_spec key key'); [congruence|reflexivity].
  - destruct (String.eqb_spec k key) as [->|Hk]; simpl.
    + destruct (String.eqb_spec key key'); [congruence|reflexivity].
    + destruct (String.eqb k key'); [reflexivity|assumption].
Qed.

Lemma mapSet_keys key metric map :
  List.map fst (mapSet key metric map)
    = if existsb (fun k => String.eqb k key) (List.map fst map)
      then List.map fst map
      else (List.map fst map ++ [key])%list.
Proof.
  induction map as [|[k v] rest IH]; simpl; [reflexivity|].
  destruct (String.eqb k key) eqn:Hk; simpl; [reflexivity|].
  rewrite IH. now destruct (existsb _ _).
Qed.

Lemma mapSet_NoDup key metric map :
  NoDup (List.map fst map) -> NoDup (List.map fst (mapSet key metric map)).
Proof.
  intros Hnd. rewrite mapSet_keys.
  destruct (existsb _ _) eqn:He; [assumption|].
  apply NoDup_app; [assumption|repeat constructor; intros []|].
  intros k Hin [Hk|[]]. subst k.
  assert (Hex : existsb (fun k' => String.eqb k' key) (List.map fst map) = true).
  { apply existsb_exists. exists key. split; [assumption|apply String.eqb_refl]. }
  congruence.
Qed.

Lemma report_snoc ms metric monitor :
  report (ms ++ [metric]) monitor = handleMetric metric (report ms monitor).
Proof. unfold report. now rewrite fold_left_app. Qed.

(** X17.  After any sequence of reported metrics, [getMetric] returns
    for a name the metric reported last under that name, and nothing
    for a name never reported; the map holds one entry per name. *)
Theorem getMetric_latest ms key :
  let monitor := report ms newMonitor in
  getMetric key monitor
    = List.find (fun metric => String.eqb (name metric) key) (rev ms)
  /\ NoDup (List.map fst (metrics monitor)).
Proof.
  induction ms as [|metric ms IH] using rev_ind; [split; [reflexivity|constructor]|].
  cbv zeta in *. destruct IH as [IHget IHnd].
  rewrite report_snoc, rev_app_distr. simpl. split.
  - unfold getMetric, handleMetric. simpl.
    destruct (String.eqb_spec (name metric) key) as [<-|Hne].
    + apply mapGet_mapSet_same.
    + rewrite mapGet_mapSet_other by congruence. exact IHget.
  - now apply mapSet_NoDup.
Qed.

Lemma flat_map_nil {A B : Type} (f : A -> list B) l :
  List.flat_map f l = [] <-> forall x, In x l -> f x = [].
Proof.
  induction l as [|a l IH]; simpl.
  - split; [intros _ x []|reflexivity].
  - split.
    + intros H. apply app_eq_nil in H. destruct H as [Ha Hl].
      intros x [<-|Hx]; [assumption|]. now apply IH.
    + intros H. rewrite (H a (or_introl eq_refl)).
      apply IH. intros x Hx. apply H. now right.
Qed.

Lemma exceeds_false_iff v t : exceeds v t = false <-> (v <= t)%Q.
Proof.
  unfold exceeds. rewrite Bool.negb_false_iff. apply Qle_bool_iff.
Qed.

Lemma exceeds_true_iff v t : exceeds v t = true <-> (t < v)%Q.
Proof.
  unfold exceeds.
  rewrite Bool.negb_true_iff, <- Bool.not_true_iff_false, Qle_bool_iff.
  split; [apply Qnot_le_lt|apply Qlt_not_le].
Qed.

(** X18.  The budget check passes exactly when every metric that has
    been recorded under one of the five budgeted names is at or below
    its threshold; metrics not recorded, and metrics under other names,
    do not count.  Every violation it lists names a budgeted metric
    that is recorded with a value above the threshold, and there are
    at most five. *)
Theorem checkPerformanceBudget_spec monitor :
  let result := checkPerformanceBudget monitor in
  (passed result = true <->
     forall metricName limit metric,
       In (metricName, limit) budget ->
       getMetric metricName monitor = Some metric ->
       (value metric <= limit)%Q)
  /\ (passed result = true <-> violations result = [])
  /\ (forall v, In v (violations result) ->
        In (violated v, threshold v) budget
        /\ (threshold v < measured v)%Q
        /\ exists metric,
             getMetric (violated v) monitor = Some metric
             /\ measured v = value metric)
  /\ (List.length (violations result) <= 5)%nat.
Proof.
  intros result.
  assert (Hpassed : passed result = true <-> violations result = []).
  { unfold result, checkPerformanceBudget. cbn [passed violations].
    rewrite Nat.eqb_eq. apply length_zero_iff_nil. }
  split; [|split; [exact Hpassed|split]].
  - rewrite Hpassed. unfold result, checkPerformanceBudget. cbn [violations].
    rewrite flat_map_nil. unfold getMetric. split.
    + intros H metricName limit metric Hin Hget.
      specialize (H _ Hin). cbn in H. rewrite Hget in H.
      destruct (exceeds (value metric) limit) eqn:He; [discriminate|].
      now apply exceeds_false_iff.
    + intros H [metricName limit] Hin. cbn.
      destruct (mapGet metricName (metrics monitor)) as [metric|] eqn:Hget;
        [|reflexivity].
      specialize (H _ _ _ Hin Hget). apply exceeds_false_iff in H.
      now rewrite H.
  - intros v Hv. unfold result, checkPerformanceBudget in Hv. cbn [violations] in Hv.
    apply in_flat_map in Hv. destruct Hv as ([metricName limit] & Hin & Hv).
    cbn in Hv.
    destruct (mapGet metricName (metrics monitor)) as [metric|] eqn:Hget;
      [|contradiction].
    destruct (exceeds (value metric) limit) eqn:He; [|contradiction].
    destruct Hv as [<-|[]]. cbn.
    split; [assumption|]. split; [now apply exceeds_true_iff|].
    now exists metric.
  - unfold result, checkPerformanceBudget. cbn [violations]. unfold budget.
    cbn [List.flat_map]. rewrite !length_app.
    repeat match goal with
      | |- context [match ?m with Some _ => _ | None => _ end] =>
          destruct m as [?metric|]
      | |- context [if ?b then _ else _] => destruct b
      end; simpl; lia.
Qed.

Example budget_examples :
  let lcp v := mkMetric "LCP" v "v1" in
  let cls v := mkMetric "CLS" v "v2" in
  passed (checkPerformanceBudget newMonitor) = true
  /\ checkPerformanceBudget (report [lcp 3000%Q; cls double_0_1] newMonitor)
     = mkBudgetResult false [mkViolation "LCP" 3000%Q 2500%Q]
  /\ passed (checkPerformanceBudget (report [lcp 3000%Q; lcp 2500%Q] newMonitor))
     = true
  /\ passed (checkPerformanceBudget
               (report [mkMetric "FID" 100000%Q "v3"] newMonitor)) = true.
Proof. vm_compute. repeat split. Qed.

End PerformanceProofs.

(* ================================================================== *)
(** * Structured data: breadcrumb positions and image addresses         *)
(* ================================================================== *)

Module SchemaProofs.
Import Js Schemas.

Lemma mapIndexed_length {A B : Type} (f : A -> Z -> B) l : forall from,
  List.length (mapIndexed f l from) = List.length l.
Proof.
  induction l as [|a rest IH]; intros from; simpl; [reflexivity|].
  now rewrite IH.
Qed.

Lemma mapIndexed_nth {A B : Type} (f : A -> Z -> B) l : forall from k a,
  nth_error l k = Some a ->
  nth_error (mapIndexed f l from) k = Some (f a (from + Z.of_nat k)).
Proof.
  induction l as [|x rest IH]; intros from k a; destruct k as [|k]; simpl;
    try discriminate.
  - intros [= ->]. now rewrite Z.add_0_r.
  - intros H. rewrite (IH (from + 1) k a H). do 2 f_equal. lia.
Qed.

(** X19.  The breadcrumb list has one entry per item, in the order of
    the items, and the entry of the item at index [k] carries position
    [k + 1] with the name and the address of that item: the positions
    run from 1 to the number of items. *)
Theorem breadcrumb_positions items :
  List.length (itemListElement items) = List.length items
  /\ (forall k crumb,
        nth_error items k = Some crumb ->
        nth_error (itemListElement items) k
          = Some (mkListItem (Z.of_nat k + 1) (itemName crumb) (itemUrl crumb)))
  /\ List.map position (itemListElement items)
     = List.map (fun k => Z.of_nat k + 1) (List.seq 0 (List.length items)).
Proof.
  unfold itemListElement. split; [apply mapIndexed_length|]. split.
  - intros k crumb H.
    rewrite (mapIndexed_nth _ _ 0 k crumb H). reflexivity.
  - assert (Hgen : forall from,
              List.map position
                (mapIndexed
                   (fun item index =>
                      mkListItem (index + 1) (itemName item) (itemUrl item))
                   items (Z.of_nat from))
              = List.map (fun k => Z.of_nat k + 1)
                  (List.seq from (List.length items))).
    { induction items as [|x rest IH]; intros from; simpl; [reflexivity|].
      f_equal. replace (Z.of_nat from + 1) with (Z.of_nat (S from)) by lia.
      apply IH. }
    apply (Hgen 0%nat).
Qed.

Lemma startsWith_app p s t :
  SeoMonitoring.startsWith p s = true ->
  SeoMonitoring.startsWith p (s ++ t) = true.
Proof.
  revert s. induction p as [|a p IH]; intros s; [reflexivity|].
  destruct s as [|b s]; simpl; [discriminate|].
  rewrite !Bool.andb_true_iff. intros [Hab Hp]. split; [assumption|now apply IH].
Qed.

(** X20.  Of the images of a product those that start with [http] are
    emitted as they are and the others behind the base URL.  So when
    the base URL starts with [http], every emitted image address does,
    and emitting the emitted addresses again changes nothing. *)
Theorem productImages_absolute baseUrl images :
  SeoMonitoring.startsWith (lit "http") baseUrl = true ->
  Forall (fun img => SeoMonitoring.startsWith (lit "http") img = true)
    (productImages baseUrl images)
  /\ productImages baseUrl (productImages baseUrl images)
     = productImages baseUrl images
  /\ List.length (productImages baseUrl images) = List.length images
  /\ (Forall (fun img => SeoMonitoring.startsWith (lit "http") img = true) images ->
      productImages baseUrl images = images).
Proof.
  intros Hbase. unfold productImages.
  split; [|split; [|split]].
  - apply Forall_forall. intros img Hin.
    apply in_map_iff in Hin. destruct Hin as (img0 & <- & _).
    destruct (SeoMonitoring.startsWith (lit "http") img0) eqn:H0;
      [assumption|now apply startsWith_app].
  - rewrite map_map. apply map_ext. intros img.
    destruct (SeoMonitoring.startsWith (lit "http") img) eqn:H0.
    + now rewrite H0.
    + now rewrite (startsWith_app _ _ img Hbase).
  - apply length_map.
  - induction 1 as [|img rest Himg _ IH]; cbn [List.map]; [reflexivity|].
    now rewrite Himg, IH.
Qed.

Lemma productImages_absolute_witness :
  let baseUrl := lit "http://localhost:3001" in
  let images := [lit "/images/sofa.jpg"; lit "https://cdn.example.com/sofa.jpg"] in
  SeoMonitoring.startsWith (lit "http") baseUrl = true
  /\ productImages baseUrl images
     = [lit "http://localhost:3001/images/sofa.jpg";
        lit "https://cdn.example.com/sofa.jpg"]
  /\ Forall (fun img => SeoMonitoring.startsWith (lit "http") img = true)
       (productImages baseUrl images).
Proof.
  intros baseUrl images.
  assert (H : SeoMonitoring.startsWith (lit "http") baseUrl = true) by reflexivity.
  split; [exact H|]. split; [reflexivity|].
  exact (proj1 (productImages_absolute baseUrl images H)).
Defined.

End SchemaProofs.

(* ================================================================== *)
(** * src/components/ProductImage.tsx                                   *)
(* ================================================================== *)

Module ProductImageProofs.
Import Js ProductImage.




Example productImage_examples :
  imageRun (Some (lit "https://example.com/sofa.jpg")) [Loaded]
    = mkImageState false false
  /\ imageRun (Some (lit "https://example.com/sofa.jpg")) [Failed; Loaded]
    = mkImageState false true
  /\ imageRun (Some (lit "   ")) [Loaded; Failed] = mkImageState true true
  /\ imageRun (Some []) [Loaded] = mkImageState true true
  /\ imageRun None [Loaded] = mkImageState true true.
Proof. repeat split. Qed.

End ProductImageProofs.
